(** * cmd2/utils.py: shared utility functions, embedded in Rocq

    The functions of [cmd2/utils.py] are translated one by one, together with
    the pieces of the Python runtime they call ([int], [str.lower],
    [re.split], [sorted], [collections.OrderedDict], [codecs.open]).

    Conventions of the embedding:
    - a Python [str] is a [string]; its characters are read as the code
      points 0..255, so a literal such as ["on"] is the Python string
      ['on'];
    - a call that may raise returns a [result]: [Ok v] for a normal
      return, [Raise e] for an exception of class [e];
    - [print] appends a line to an explicit list of printed lines;
    - the file system is an explicit function from paths to contents. *)

From Stdlib Require Import String Ascii ZArith List Bool Arith Lia.
From Stdlib Require Import DecimalString Permutation Sorted.
Import ListNotations.

Open Scope string_scope.
Open Scope list_scope.

Set Implicit Arguments.

(** ** The Python runtime *)

Module Py.

(** Exception classes the module can meet. *)
Inductive exn : Type :=
| ValueError
| TypeError
| IndexError
| AttributeError
| UnicodeDecodeError
| OSError.

Definition exn_eqb (a b : exn) : bool :=
  match a, b with
  | ValueError, ValueError
  | TypeError, TypeError
  | IndexError, IndexError
  | AttributeError, AttributeError
  | UnicodeDecodeError, UnicodeDecodeError
  | OSError, OSError => true
  | _, _ => false
  end.

(** Outcome of evaluating an expression. *)
Inductive result (A : Type) : Type :=
| Ok (a : A)
| Raise (e : exn).

Arguments Ok {A} a.
Arguments Raise {A} e.

Definition bind {A B : Type} (r : result A) (k : A -> result B) : result B :=
  match r with
  | Ok a => k a
  | Raise e => Raise e
  end.

(** [s[i]] for a non-negative index: [IndexError] out of range. *)
Definition getitem (s : string) (i : nat) : result ascii :=
  match String.get i s with
  | Some c => Ok c
  | None => Raise IndexError
  end.

(** [s[-1]]: the last character, [IndexError] on the empty string. *)
Definition getitem_last (s : string) : result ascii :=
  match s with
  | EmptyString => Raise IndexError
  | _ => getitem s (String.length s - 1)
  end.

(** [s[1:-1]]: slices never raise; on fewer than two characters the
    slice is empty. *)
Definition slice_1_m1 (s : string) : string :=
  substring 1 (String.length s - 2) s.

(** [c in s] for a one-character string [c]. *)
Fixpoint contains (c : ascii) (s : string) : bool :=
  match s with
  | EmptyString => false
  | String d r => Ascii.eqb c d || contains c r
  end.

(** [c in (x, y, ...)]: membership in a tuple of characters. *)
Definition char_in (c : ascii) (l : list ascii) : bool :=
  existsb (Ascii.eqb c) l.

End Py.

Import Py.

Notation "x <- r ;; k" := (Py.bind r (fun x => k))
  (at level 61, r at next level, right associativity).

(** ** Quote handling *)

Definition dquote : ascii := "034"%char.
Definition squote : ascii := "'"%char.

(** Modelled from the spec: [constants.QUOTES] lives in [cmd2/constants.py],
    which is not part of the sources at hand.  The spec speaks of a fixed set
    of quote characters and the docstring of [strip_quotes] says it applies
    to both single and double quotes. *)
Definition QUOTES : list ascii := [dquote; squote].

(** [len(arg) > 1 and arg[0] == arg[-1] and arg[0] in constants.QUOTES].
    [and] is short-circuit, so the two subscripts are only evaluated on a
    string of at least two characters. *)
Definition is_quoted (arg : string) : result bool :=
  if (1 <? String.length arg)%nat then
    a <- getitem arg 0 ;;
    z <- getitem_last arg ;;
    if Ascii.eqb a z then
      a' <- getitem arg 0 ;;
      Ok (char_in a' QUOTES)
    else Ok false
  else Ok false.

(** Quotes a string if it contains spaces and is not already quoted. *)
Definition quote_string_if_needed (arg : string) : result string :=
  q <- is_quoted arg ;;
  if q || negb (contains " " arg) then Ok arg
  else
    let quote := if contains dquote arg then squote else dquote in
    Ok (String quote (arg ++ String quote "")).

(** Strips the outer quotes of a quoted string. *)
Definition strip_quotes (arg : string) : result string :=
  q <- is_quoted arg ;;
  if q then Ok (slice_1_m1 arg) else Ok arg.

(** ** More of the runtime: [str.lower], [int], [str.format] *)

Module PyStr.

Definition code (c : ascii) : N := N_of_ascii c.

Definition in_range (lo hi : N) (c : ascii) : bool :=
  ((lo <=? code c) && (code c <=? hi))%N.

(** Characters below 256 that [str.lower] changes: [A-Z] and the
    upper-case letters of Latin-1 (0xC0..0xDE but the multiplication sign
    0xD7); each goes to the character 32 places further. *)
Definition is_upper (c : ascii) : bool :=
  in_range 65 90 c || (in_range 192 222 c && negb (code c =? 215)%N).

Definition lower_char (c : ascii) : ascii :=
  if is_upper c then ascii_of_N (code c + 32) else c.

(** [s.lower()] *)
Fixpoint lower (s : string) : string :=
  match s with
  | EmptyString => EmptyString
  | String c r => String (lower_char c) (lower r)
  end.

(** The characters [0-9]: below 256 these are the only decimal digits, for
    [int] as well as for the class [\d] of [re]. *)
Definition is_digit (c : ascii) : bool := in_range 48 57 c.

Definition digit_value (c : ascii) : Z := Z.of_N (code c) - 48.

(** White space that [int] skips at both ends of its argument: tab, line
    feed, vertical tab, form feed, carriage return, space, and beyond
    ASCII the next-line and no-break-space characters. *)
Definition is_space (c : ascii) : bool :=
  in_range 9 13 c || (code c =? 32)%N || (code c =? 133)%N || (code c =? 160)%N.

Fixpoint lstrip (s : string) : string :=
  match s with
  | EmptyString => EmptyString
  | String c r => if is_space c then lstrip r else s
  end.

Fixpoint rstrip (s : string) : string :=
  match s with
  | EmptyString => EmptyString
  | String c r =>
      match rstrip r with
      | EmptyString => if is_space c then EmptyString else String c EmptyString
      | r' => String c r'
      end
  end.

Definition strip (s : string) : string := rstrip (lstrip s).

(** Value of [digit (["_"] digit)*], read from the left; [acc] is the value
    of the digits read so far and [after_digit] tells whether the previous
    character was a digit.  [None] when the text is not of that shape. *)
Fixpoint digits (s : string) (acc : Z) (after_digit : bool) : option Z :=
  match s with
  | EmptyString => if after_digit then Some acc else None
  | String c r =>
      if is_digit c then digits r (10 * acc + digit_value c) true
      else if Ascii.eqb c "_" && after_digit then digits r acc false
      else None
  end.

(** [sys.get_int_max_str_digits()], at its default: the largest number of
    digits [int] reads and [str] writes. *)
Definition int_max_str_digits : nat := 4300.

(** The number of digits of a string. *)
Fixpoint count_digits (s : string) : nat :=
  match s with
  | EmptyString => 0
  | String c r => (if is_digit c then 1 else 0) + count_digits r
  end.

(** [int(s)] in base 10: surrounding white space, an optional sign, then
    digits that single underscores may separate.  Anything else is a
    [ValueError], and so is a text of more than [int_max_str_digits]
    digits, leading zeros counted. *)
Definition int (s : string) : result Z :=
  let t := strip s in
  let '(negative, body) :=
    match t with
    | String c r =>
        if Ascii.eqb c "+" then (false, r)
        else if Ascii.eqb c "-" then (true, r)
        else (false, t)
    | EmptyString => (false, t)
    end in
  if (int_max_str_digits <? count_digits body)%nat then Raise ValueError
  else
    match digits body 0 false with
    | Some n => Ok (if negative then (- n)%Z else n)
    | None => Raise ValueError
    end.

(** The decimal writing of an integer. *)
Definition decimal_text (z : Z) : string :=
  NilZero.string_of_int (Z.to_int z).

(** The number of decimal digits of an integer. *)
Definition digits_of_int (z : Z) : nat :=
  String.length (decimal_text (Z.abs z)).

(** [str(z)] for an integer: a [ValueError] when [z] has more than
    [int_max_str_digits] digits. *)
Definition str_of_int (z : Z) : result string :=
  if (int_max_str_digits <? digits_of_int z)%nat then Raise ValueError
  else Ok (decimal_text z).

(** [str(b)] for a boolean. *)
Definition str_of_bool (b : bool) : string :=
  if b then "True" else "False".

End PyStr.

Arguments PyStr.int_max_str_digits : simpl never.

(** ** Type coercion *)

(** The values a settable parameter holds: these are the types of [current]
    that [cast] is followed on. *)
Inductive value : Type :=
| VBool (b : bool)
| VInt (z : Z)
| VStr (s : string).

(** [str(v)], as [str.format] renders a [{}] field. *)
Definition str_of_value (v : value) : result string :=
  match v with
  | VBool b => Ok (PyStr.str_of_bool b)
  | VInt z => PyStr.str_of_int z
  | VStr s => Ok s
  end.

(** [typ(new)] for [typ = type(current)]: [bool(new)], [int(new)] or
    [str(new)]. *)
Definition construct (current : value) (new : string) : result value :=
  match current with
  | VBool _ => Ok (VBool (negb (String.eqb new "")))
  | VInt _ => z <- PyStr.int new ;; Ok (VInt z)
  | VStr _ => Ok (VStr new)
  end.

(** A block of statements either returns a value from the function
    ([Ok (Some v)]), runs to its end ([Ok None]) or raises. *)
Definition block : Type := result (option value).

Definition returns (v : value) : block := Ok (Some v).
Definition falls_through : block := Ok None.

(** [try: b except (e1, e2, ...): pass] *)
Definition try_except_pass (b : block) (handled : list exn) : block :=
  match b with
  | Raise e => if existsb (exn_eqb e) handled then falls_through else Raise e
  | _ => b
  end.

(** [b1] followed by [b2]. *)
Definition seq_block (b1 b2 : block) : block :=
  match b1 with
  | Ok None => b2
  | _ => b1
  end.

(** [x or y] on booleans, [y] being evaluated only when [x] is false. *)
Definition or_else (x : bool) (y : result bool) : result bool :=
  if x then Ok true else y.

(** The diagnostic, [shown] being the text of the current value. *)
Definition problem_text (shown orig_new : string) : string :=
  "Problem setting parameter (now " ++ shown ++ ") to "
    ++ orig_new ++ "; incorrect type?".

(** ["Problem ... (now {}) to {}; incorrect type?".format(current, orig_new)] *)
Definition problem_message (current : value) (orig_new : string)
  : result string :=
  shown <- str_of_value current ;;
  Ok (problem_text shown orig_new).

(** What a call of [cast] does: the lines it prints and how it ends. *)
Record outcome : Type := {
  printed : list string;
  ended : result value
}.

(** Tries to force [new] into the type of [current]. *)
Definition cast (current : value) (new : string) : outcome :=
  let orig_new := new in
  let body : block :=
    match current with
    | VBool _ =>
        seq_block
          (try_except_pass
             (z <- PyStr.int new ;; returns (VBool (negb (z =? 0)%Z)))
             [ValueError; TypeError])
          (try_except_pass
             (let new := PyStr.lower new in
              yes <- or_else (String.eqb new "on")
                       (c <- getitem new 0 ;; Ok (char_in c ["y"; "t"]%char)) ;;
              if yes then returns (VBool true)
              else
                no <- or_else (String.eqb new "off")
                        (c <- getitem new 0 ;; Ok (char_in c ["n"; "f"]%char)) ;;
                if no then returns (VBool false) else falls_through)
             [AttributeError])
    | _ =>
        try_except_pass
          (v <- construct current new ;; returns v)
          [ValueError; TypeError]
    end in
  match body with
  | Ok (Some v) => {| printed := []; ended := Ok v |}
  | Ok None =>
      (* the last two lines stand outside every [try] *)
      match problem_message current orig_new with
      | Ok line => {| printed := [line]; ended := Ok current |}
      | Raise e => {| printed := []; ended := Raise e |}
      end
  | Raise e => {| printed := []; ended := Raise e |}
  end.

(** ** De-duplication *)

Module OrderedDict.
Section Dict.

(** Keys are compared with [eqb], the [==] of hashable items. *)
Variables (A V : Type) (eqb : A -> A -> bool).

(** An ordered dictionary lists its items in insertion order. *)
Definition t : Type := list (A * V).

Definition empty : t := [].

(** [d[k] = v]: a key that is present keeps its place (and the key object
    stored first), a new key goes to the end. *)
Fixpoint setitem (d : t) (k : A) (v : V) : t :=
  match d with
  | [] => [(k, v)]
  | (k', v') :: r =>
      if eqb k k' then (k', v) :: r else (k', v') :: setitem r k v
  end.

(** [list(d.keys())] *)
Definition keys (d : t) : list A := map fst d.

End Dict.
End OrderedDict.

Section RemoveDuplicates.

Variables (A : Type) (eqb : A -> A -> bool).

(** Removes duplicates from a list while preserving the order of the
    items; [tt] stands for the value [None] stored under every key. *)
Definition remove_duplicates (list_to_prune : list A) : list A :=
  let temp_dict :=
    fold_left (fun d item => OrderedDict.setitem eqb d item tt)
              list_to_prune (OrderedDict.empty A unit) in
  OrderedDict.keys temp_dict.

(** The spec's wording: the items of the input whose value does not occur
    at an earlier position, in the order of the input. *)
Definition first_occurrences (l : list A) : list A :=
  map snd
    (filter (fun '(i, x) => negb (existsb (eqb x) (firstn i l)))
            (combine (seq 0 (length l)) l)).

End RemoveDuplicates.

(** ** Sorting *)

Module PySort.
Section Sorted.

(** [sorted(l, key=key)] computes the key of every item first, then
    orders the items with [<] on the keys alone, keeping items whose keys
    are not ordered in their input order.  The items are placed one after
    the other, each before the first item already placed whose key is
    greater: this asks [lt] for the key of the new item against keys
    already placed, the way the insertion phase of [list.sort] does. *)
Variables (A K : Type) (lt : K -> K -> result bool) (key : A -> result K).

Fixpoint decorate (l : list A) : result (list (K * A)) :=
  match l with
  | [] => Ok []
  | x :: r =>
      k <- key x ;;
      r' <- decorate r ;;
      Ok ((k, x) :: r')
  end.

Fixpoint insert (x : K * A) (placed : list (K * A)) : result (list (K * A)) :=
  match placed with
  | [] => Ok [x]
  | y :: r =>
      b <- lt (fst x) (fst y) ;;
      if b then Ok (x :: y :: r)
      else r' <- insert x r ;; Ok (y :: r')
  end.

Fixpoint insert_all (l placed : list (K * A)) : result (list (K * A)) :=
  match l with
  | [] => Ok placed
  | x :: r => placed' <- insert x placed ;; insert_all r placed'
  end.

Definition sorted (l : list A) : result (list A) :=
  d <- decorate l ;;
  s <- insert_all d [] ;;
  Ok (map snd s).

End Sorted.
End PySort.

(** The parts of a natural sort key: [Union[int, str]]. *)
Inductive key_part : Type :=
| KInt (n : Z)
| KStr (s : string).

Module PyCmp.

(** [a == b]: an integer and a string are never equal. *)
Definition eq (a b : key_part) : bool :=
  match a, b with
  | KInt m, KInt n => (m =? n)%Z
  | KStr s, KStr t => String.eqb s t
  | _, _ => false
  end.

(** [a < b]: integers by value, strings by code points; an integer
    against a string is a [TypeError]. *)
Definition lt (a b : key_part) : result bool :=
  match a, b with
  | KInt m, KInt n => Ok (m <? n)%Z
  | KStr s, KStr t => Ok (String.ltb s t)
  | _, _ => Raise TypeError
  end.

(** [a < b] on lists: the first position where the items differ under
    [==] decides with [<]; when one list runs out, the shorter is less. *)
Fixpoint list_lt (a b : list key_part) : result bool :=
  match a, b with
  | [], [] => Ok false
  | [], _ :: _ => Ok true
  | _ :: _, [] => Ok false
  | x :: a', y :: b' => if eq x y then list_lt a' b' else lt x y
  end.

End PyCmp.

Module PyRe.

(** [re.split('(\d+)', s)]: the text between the maximal runs of digits
    and, because of the group, the runs themselves, in turn.  [piece] is
    the piece being read and [in_digits] tells whether it is a run of
    digits. *)
Fixpoint split_runs (s : string) (piece : string) (in_digits : bool)
  : list string :=
  match s with
  | EmptyString => if in_digits then [piece; ""] else [piece]
  | String c r =>
      if Bool.eqb (PyStr.is_digit c) in_digits
      then split_runs r (piece ++ String c "") in_digits
      else piece :: split_runs r (String c "") (PyStr.is_digit c)
  end.

Definition split_digits (s : string) : list string := split_runs s "" false.

End PyRe.

Section NaturalSort.

(** [unicodedata.normalize('NFC', astr).casefold()] relies on the Unicode
    tables of the interpreter: it is a parameter of what follows. *)
Variable norm_fold : string -> string.

(** Sorts a list of strings alphabetically. *)
Definition alphabetical_sort (list_to_sort : list string)
  : result (list string) :=
  PySort.sorted (fun s t => Ok (String.ltb s t))
                (fun s => Ok (norm_fold s)) list_to_sort.

(** [int(input_str)], or the folded string when that is a [ValueError]. *)
Definition try_int_or_force_to_lower_case (input_str : string)
  : result key_part :=
  match PyStr.int input_str with
  | Ok n => Ok (KInt n)
  | Raise ValueError => Ok (KStr (norm_fold input_str))
  | Raise e => Raise e
  end.

Fixpoint comprehension (l : list string) : result (list key_part) :=
  match l with
  | [] => Ok []
  | substr :: r =>
      k <- try_int_or_force_to_lower_case substr ;;
      r' <- comprehension r ;;
      Ok (k :: r')
  end.

(** Converts a string into a list of integers and strings. *)
Definition natural_keys (input_str : string) : result (list key_part) :=
  comprehension (PyRe.split_digits input_str).

(** Sorts a list of strings case insensitively as well as numerically. *)
Definition natural_sort (list_to_sort : list string) : result (list string) :=
  PySort.sorted PyCmp.list_lt natural_keys list_to_sort.

End NaturalSort.

(** Normalisation and case folding on ASCII text, where NFC changes
    nothing and case folding lowers [A-Z]: an instance of the parameter
    [norm_fold] to run the sorts on ASCII inputs. *)
Definition ascii_fold_char (c : ascii) : ascii :=
  if PyStr.in_range 65 90 c then ascii_of_N (PyStr.code c + 32) else c.

Fixpoint ascii_norm_fold (astr : string) : string :=
  match astr with
  | EmptyString => EmptyString
  | String c r => String (ascii_fold_char c) (ascii_norm_fold r)
  end.

(** ** Text files *)

Module PyCodecs.

Definition byte_code (b : Byte.byte) : N := Byte.to_N b.

(** Decoded text, as code points. *)
Definition text : Type := list N.

(** [codecs.ascii_decode(data, 'strict')]: every byte below 128, or a
    [UnicodeDecodeError]. *)
Fixpoint ascii_decode (data : list Byte.byte) : result text :=
  match data with
  | [] => Ok []
  | b :: r =>
      if (byte_code b <? 128)%N
      then t <- ascii_decode r ;; Ok (byte_code b :: t)
      else Raise UnicodeDecodeError
  end.

(** A continuation byte, 0x80..0xBF. *)
Definition is_continuation (b : Byte.byte) : bool :=
  ((128 <=? byte_code b) && (byte_code b <=? 191))%N.

Definition payload (b : Byte.byte) : N := (byte_code b mod 64)%N.

(** The second byte of a three-byte sequence: a continuation byte that
    gives neither an overlong form (after 0xE0) nor a surrogate (after
    0xED). *)
Definition second_of_3 (b0 b1 : Byte.byte) : bool :=
  is_continuation b1
  && negb (if (byte_code b1 <? 160)%N then (byte_code b0 =? 224)%N
           else (byte_code b0 =? 237)%N).

(** The second byte of a four-byte sequence: neither overlong (after
    0xF0) nor beyond U+10FFFF (after 0xF4). *)
Definition second_of_4 (b0 b1 : Byte.byte) : bool :=
  is_continuation b1
  && negb (if (byte_code b1 <? 144)%N then (byte_code b0 =? 240)%N
           else (byte_code b0 =? 244)%N).

(** What is done when the data stop inside a sequence: an error for a
    final chunk, and otherwise the bytes are left for the next chunk. *)
Definition unexpected_end (final : bool) : result text :=
  if final then Raise UnicodeDecodeError else Ok [].

(** [codecs.utf_8_decode(data, 'strict', final)], the decoded text alone.
    With [final] false, a sequence that is cut by the end of the data is
    not an error; so is a cut surrogate 0xED 0xA0..0xBF. *)
Fixpoint utf_8_decode (final : bool) (data : list Byte.byte) : result text :=
  match data with
  | [] => Ok []
  | b0 :: r0 =>
      let c0 := byte_code b0 in
      if (c0 <? 128)%N then
        t <- utf_8_decode final r0 ;; Ok (c0 :: t)
      else if (c0 <? 194)%N then Raise UnicodeDecodeError
      else if (c0 <? 224)%N then
        match r0 with
        | [] => unexpected_end final
        | b1 :: r1 =>
            if is_continuation b1 then
              t <- utf_8_decode final r1 ;;
              Ok (((c0 mod 32) * 64 + payload b1)%N :: t)
            else Raise UnicodeDecodeError
        end
      else if (c0 <? 240)%N then
        match r0 with
        | [] => unexpected_end final
        | b1 :: r1 =>
            if second_of_3 b0 b1 then
              match r1 with
              | [] => unexpected_end final
              | b2 :: r2 =>
                  if is_continuation b2 then
                    t <- utf_8_decode final r2 ;;
                    Ok ((((c0 mod 16) * 64 + payload b1) * 64
                         + payload b2)%N :: t)
                  else Raise UnicodeDecodeError
              end
            else
              match r1 with
              | [] =>
                  if negb final && (c0 =? 237)%N && is_continuation b1
                  then Ok []
                  else Raise UnicodeDecodeError
              | _ => Raise UnicodeDecodeError
              end
        end
      else if (c0 <? 245)%N then
        match r0 with
        | [] => unexpected_end final
        | b1 :: r1 =>
            if second_of_4 b0 b1 then
              match r1 with
              | [] => unexpected_end final
              | b2 :: r2 =>
                  if is_continuation b2 then
                    match r2 with
                    | [] => unexpected_end final
                    | b3 :: r3 =>
                        if is_continuation b3 then
                          t <- utf_8_decode final r3 ;;
                          Ok (((((c0 mod 8) * 64 + payload b1) * 64
                                + payload b2) * 64 + payload b3)%N :: t)
                        else Raise UnicodeDecodeError
                    end
                  else Raise UnicodeDecodeError
              end
            else Raise UnicodeDecodeError
        end
      else Raise UnicodeDecodeError
  end.

(** Characters that end a line for [str.splitlines]. *)
Definition is_linebreak (c : N) : bool :=
  existsb (N.eqb c) [10; 11; 12; 13; 28; 29; 30; 133; 8232; 8233]%N.

(** Number of lines of a text; [pending] tells whether characters were
    read since the last line end.  A carriage return and the line feed
    after it end one line. *)
Fixpoint count_lines (t : text) (pending : bool) : nat :=
  match t with
  | [] => if pending then 1 else 0
  | c :: r =>
      if (c =? 13)%N then
        match r with
        | c' :: r' =>
            if (c' =? 10)%N then S (count_lines r' false)
            else S (count_lines r false)
        | [] => 1
        end
      else if is_linebreak c then S (count_lines r false)
      else count_lines r true
  end.

(** The decoder a stream reader of [codecs.open] runs for an encoding.
    The reader of [utf-8] hands every chunk to [utf_8_decode] with
    [final] left false, also when the file is at its end. *)
Inductive encoding : Type := Ascii | Utf8.

Definition stream_decode (enc : encoding) (data : list Byte.byte)
  : result text :=
  match enc with
  | Ascii => ascii_decode data
  | Utf8 => utf_8_decode false data
  end.

(** [bytes.decode(encoding, 'strict')]: the whole content at once. *)
Definition strict_decode (enc : encoding) (data : list Byte.byte)
  : result text :=
  match enc with
  | Ascii => ascii_decode data
  | Utf8 => utf_8_decode true data
  end.

End PyCodecs.

Section TextFile.

(** The file system: the bytes of the file at a path, or [OSError] when it
    cannot be opened or read. *)
Variable fs : string -> result (list Byte.byte).

(** [os.path.abspath(os.path.expanduser(file_path.strip()))] depends on
    the process environment.  The call stands before the first [try]: what
    follows is about the calls in which it returns, [expand_path file_path]
    being the path it returns. *)
Variable expand_path : string -> string.

(** [with codecs.open(path, encoding=enc, errors='strict') as f:
       sum(1 for line in f) > 0] *)
Definition has_a_line (enc : PyCodecs.encoding) (path : string)
  : result bool :=
  data <- fs path ;;
  t <- PyCodecs.stream_decode enc data ;;
  Ok (0 <? PyCodecs.count_lines t false)%nat.

(** Returns if a file contains only ASCII or UTF-8 encoded text. *)
Definition is_text_file (file_path : string) : result bool :=
  let expanded_path := expand_path file_path in
  match has_a_line PyCodecs.Ascii expanded_path with
  | Ok valid_text_file => Ok valid_text_file
  | Raise OSError => Ok false
  | Raise UnicodeDecodeError =>
      match has_a_line PyCodecs.Utf8 expanded_path with
      | Ok valid_text_file => Ok valid_text_file
      | Raise OSError => Ok false
      | Raise UnicodeDecodeError => Ok false
      | Raise e => Raise e
      end
  | Raise e => Raise e
  end.

(** The spec's wording: the content decodes in full under strict ASCII or,
    failing that, under strict UTF-8, and has at least one line. *)
Definition is_text_content (data : list Byte.byte) : bool :=
  match PyCodecs.strict_decode PyCodecs.Ascii data with
  | Ok t => (0 <? PyCodecs.count_lines t false)%nat
  | Raise _ =>
      match PyCodecs.strict_decode PyCodecs.Utf8 data with
      | Ok t => (0 <? PyCodecs.count_lines t false)%nat
      | Raise _ => false
      end
  end.

End TextFile.

(** [is_text_file] from its first line.  The expansion of the path stands
    before the first [try], so what it raises leaves the function:
    [os.path.abspath] asks for the working directory when the path is
    relative, which is an [OSError] when that directory is gone.
    [expand] is the expansion as a call that can raise. *)
Definition is_text_file_from_path (fs : string -> result (list Byte.byte))
  (expand : string -> result string) (file_path : string) : result bool :=
  expanded_path <- expand file_path ;;
  is_text_file fs (fun _ => expanded_path) file_path.

(** ** Vocabulary of the statements *)

(** The first character of [s] is [c]. *)
Definition begins_with (c : ascii) (s : string) : bool :=
  match s with
  | String d _ => Ascii.eqb d c
  | EmptyString => false
  end.

(** The last character of a string, if any. *)
Fixpoint last_char (s : string) : option ascii :=
  match s with
  | EmptyString => None
  | String c EmptyString => Some c
  | String _ r => last_char r
  end.

(** [cast] returned [v] and printed nothing. *)
Definition returned (v : value) : outcome :=
  {| printed := []; ended := Ok v |}.

(** The text of a value, whatever its size. *)
Definition shown (v : value) : string :=
  match v with
  | VBool b => PyStr.str_of_bool b
  | VInt z => PyStr.decimal_text z
  | VStr s => s
  end.

(** [cast] gave up: it printed the diagnostic and returned [current]. *)
Definition gave_up (current : value) (new : string) : outcome :=
  {| printed := [problem_text (shown current) new]; ended := Ok current |}.

(** What [cast] makes of a non-empty [new] for a boolean [current], in the
    order the code tries things. *)
Definition bool_vocabulary (current : bool) (new : string) : outcome :=
  match PyStr.int new with
  | Ok n => returned (VBool (negb (n =? 0)%Z))
  | Raise _ =>
      let l := PyStr.lower new in
      if String.eqb l "on" || begins_with "y" l || begins_with "t" l
      then returned (VBool true)
      else if String.eqb l "off" || begins_with "n" l || begins_with "f" l
      then returned (VBool false)
      else gave_up (VBool current) new
  end.

(** No character of [s] satisfies [p]; every character of [s] does. *)
Fixpoint none_of (p : ascii -> bool) (s : string) : bool :=
  match s with
  | EmptyString => true
  | String c r => negb (p c) && none_of p r
  end.

Fixpoint all_of (p : ascii -> bool) (s : string) : bool :=
  match s with
  | EmptyString => true
  | String c r => p c && all_of p r
  end.

Definition nonempty (s : string) : bool :=
  match s with
  | EmptyString => false
  | _ => true
  end.

(** A piece that other pieces follow is of the kind [in_digits] says: a
    non-empty run of digits, or a text without digits that is not empty when
    a piece comes before it ([inner]). *)
Definition piece_fits (inner in_digits : bool) (piece : string) : bool :=
  if in_digits then all_of PyStr.is_digit piece && nonempty piece
  else none_of PyStr.is_digit piece && (negb inner || nonempty piece).

(** The pieces of a string split on its runs of digits: text without
    digits and non-empty runs of digits in turn, a text at both ends; only
    the texts at the two ends may be empty.  [in_digits] tells the kind of
    the first piece and [inner] whether a piece comes before it. *)
Fixpoint split_on_digit_runs (inner in_digits : bool) (pieces : list string)
  : bool :=
  match pieces with
  | [] => false
  | [p] => negb in_digits && none_of PyStr.is_digit p
  | p :: r =>
      piece_fits inner in_digits p
      && split_on_digit_runs true (negb in_digits) r
  end.

(** The number a run of digits denotes, [acc] being the value of the digits
    to its left. *)
Fixpoint decimal_value (acc : Z) (run : string) : Z :=
  match run with
  | EmptyString => acc
  | String c r => decimal_value (10 * acc + PyStr.digit_value c) r
  end.

(** The spec's wording of the natural sort key: the texts folded, the runs
    of digits as integers. *)
Fixpoint key_of_pieces (norm_fold : string -> string) (in_digits : bool)
  (pieces : list string) : list key_part :=
  match pieces with
  | [] => []
  | p :: r =>
      (if in_digits then KInt (decimal_value 0 p) else KStr (norm_fold p))
        :: key_of_pieces norm_fold (negb in_digits) r
  end.

Definition natural_key (norm_fold : string -> string) (s : string)
  : list key_part :=
  key_of_pieces norm_fold false (PyRe.split_digits s).

(** A key that holds strings and integers in turn; [want_int] is the kind
    of its first part. *)
Fixpoint alternates (want_int : bool) (k : list key_part) : bool :=
  match k with
  | [] => true
  | KInt _ :: r => want_int && alternates false r
  | KStr _ :: r => negb want_int && alternates true r
  end.

Definition is_str (p : key_part) : bool :=
  match p with
  | KStr _ => true
  | KInt _ => false
  end.

Definition same_type (a b : key_part) : bool := Bool.eqb (is_str a) (is_str b).

(** Lexicographic comparison of keys, as a three-way comparison that is
    defined on every pair of keys (an integer is put before a string; on
    keys whose runs of digits [int] reads that case does not arise). *)
Definition part_compare (a b : key_part) : comparison :=
  match a, b with
  | KInt m, KInt n => (m ?= n)%Z
  | KStr s, KStr t => String.compare s t
  | KInt _, KStr _ => Lt
  | KStr _, KInt _ => Gt
  end.

Fixpoint key_compare (a b : list key_part) : comparison :=
  match a, b with
  | [], [] => Eq
  | [], _ :: _ => Lt
  | _ :: _, [] => Gt
  | x :: a', y :: b' =>
      match part_compare x y with
      | Eq => key_compare a' b'
      | c => c
      end
  end.

Definition key_ltb (a b : list key_part) : bool :=
  match key_compare a b with
  | Lt => true
  | _ => false
  end.


(** Insertion sort without effects, for a key function and a strict order
    that cannot fail. *)
Section PureSort.

Variables (A K : Type) (ltb : K -> K -> bool) (kf : A -> K).

Fixpoint place (x : A) (placed : list A) : list A :=
  match placed with
  | [] => [x]
  | y :: r => if ltb (kf x) (kf y) then x :: y :: r else y :: place x r
  end.

Fixpoint place_all (l placed : list A) : list A :=
  match l with
  | [] => placed
  | x :: r => place_all r (place x placed)
  end.

(** [a] does not come after [b]. *)
Definition not_after (a b : A) : Prop := ltb (kf b) (kf a) = false.

(** The key of [x] is neither below nor above [k]. *)
Definition tied (k : K) (x : A) : bool :=
  negb (ltb (kf x) k) && negb (ltb k (kf x)).

End PureSort.

(** [n] times the character [c]. *)
Fixpoint replicate (n : nat) (c : ascii) : string :=
  match n with
  | O => EmptyString
  | S m => String c (replicate m c)
  end.

(** Every run of digits of [s] has at most [int_max_str_digits] digits;
    [run] is the number of digits that end just before [s]. *)
Fixpoint runs_within (s : string) (run : nat) : bool :=
  match s with
  | EmptyString => true
  | String c r =>
      if PyStr.is_digit c
      then (S run <=? PyStr.int_max_str_digits)%nat && runs_within r (S run)
      else runs_within r 0
  end.

Definition short_runs (s : string) : bool := runs_within s 0.

(** The same on pieces: the pieces that are runs of digits have at most
    [int_max_str_digits] digits. *)
Fixpoint runs_short (in_digits : bool) (pieces : list string) : bool :=
  match pieces with
  | [] => true
  | p :: r =>
      (negb in_digits || (String.length p <=? PyStr.int_max_str_digits)%nat)
      && runs_short (negb in_digits) r
  end.

(** The key the code builds from the pieces: the texts folded, the runs of
    digits as integers, but a run that [int] refuses for its length folded
    like a text. *)
Fixpoint built_key_of_pieces (norm_fold : string -> string)
  (in_digits : bool) (pieces : list string) : list key_part :=
  match pieces with
  | [] => []
  | p :: r =>
      (if in_digits
       then if (String.length p <=? PyStr.int_max_str_digits)%nat
            then KInt (decimal_value 0 p) else KStr (norm_fold p)
       else KStr (norm_fold p))
        :: built_key_of_pieces norm_fold (negb in_digits) r
  end.

Definition built_key (norm_fold : string -> string) (s : string)
  : list key_part :=
  built_key_of_pieces norm_fold false (PyRe.split_digits s).

(** Two keys can be compared: [<] does not raise on them. *)
Definition comparable (a b : list key_part) : bool :=
  match PyCmp.list_lt a b with
  | Ok _ => true
  | Raise _ => false
  end.

(** The keys of the items of [l] can be compared two by two. *)
Definition all_comparable (A : Type) (kf : A -> list key_part) (l : list A)
  : Prop :=
  forall a b, In a l -> In b l -> comparable (kf a) (kf b) = true.

(** An integer has at most [int_max_str_digits] digits. *)
Definition short_int (z : Z) : bool :=
  (PyStr.digits_of_int z <=? PyStr.int_max_str_digits)%nat.

(** A value whose text [str] gives. *)
Definition printable (v : value) : bool :=
  match v with
  | VInt z => short_int z
  | _ => true
  end.

(** Two values are of one Python type. *)
Definition same_value_type (a b : value) : bool :=
  match a, b with
  | VBool _, VBool _ => true
  | VInt _, VInt _ => true
  | VStr _, VStr _ => true
  | _, _ => false
  end.

(** Bytes that no UTF-8 text holds: 0xC0, 0xC1 and 0xF5..0xFF. *)
Definition never_in_utf8 (b : Byte.byte) : bool :=
  ((PyCodecs.byte_code b =? 192) || (PyCodecs.byte_code b =? 193)
   || (245 <=? PyCodecs.byte_code b))%N.

(** * Properties *)

(** ** Strings *)

Section StringFacts.

Lemma length_append (s t : string) :
  String.length (s ++ t) = String.length s + String.length t.
Proof.
  induction s as [|c s IH]; simpl; [reflexivity | now rewrite IH].
Qed.

Lemma get_last (s : string) :
  String.get (String.length s - 1) s = last_char s.
Proof.
  induction s as [|c s IH]; [reflexivity|].
  destruct s as [|d s]; [reflexivity|].
  replace (String.length (String c (String d s)) - 1)
    with (S (String.length (String d s) - 1)) by (simpl; lia).
  exact IH.
Qed.

Lemma last_char_append (s : string) (c : ascii) :
  last_char (s ++ String c "") = Some c.
Proof.
  induction s as [|d s IH]; [reflexivity|].
  simpl. rewrite IH. destruct (s ++ String c "")%string; [discriminate IH | reflexivity].
Qed.

Lemma last_char_split (s : string) (c : ascii) :
  last_char s = Some c -> exists body, s = (body ++ String c "")%string.
Proof.
  induction s as [|d s IH]; [discriminate|].
  destruct s as [|e s].
  - intros [= ->]. now exists "".
  - intros H. destruct (IH H) as [body ->]. now exists (String d body).
Qed.

Lemma substring_prefix (s t : string) :
  substring 0 (String.length s) (s ++ t) = s.
Proof.
  induction s as [|c s IH]; simpl.
  - now destruct t.
  - now rewrite IH.
Qed.

Lemma contains_append (c : ascii) (s t : string) :
  contains c (s ++ t) = contains c s || contains c t.
Proof.
  induction s as [|d s IH]; simpl; [reflexivity|].
  now rewrite IH, orb_assoc.
Qed.

Lemma contains_last (c : ascii) (s : string) :
  last_char s = Some c -> contains c s = true.
Proof.
  intros H. destruct (last_char_split _ H) as [body ->].
  rewrite contains_append. simpl. rewrite Ascii.eqb_refl.
  now rewrite orb_true_r.
Qed.

End StringFacts.

(** ** Quote handling *)

Section Quotes.

(** [is_quoted] as one boolean expression: it never raises. *)
Lemma is_quoted_value (arg : string) :
  is_quoted arg =
  Ok ((1 <? String.length arg)%nat
      && match String.get 0 arg, last_char arg with
         | Some a, Some z => Ascii.eqb a z && char_in a QUOTES
         | _, _ => false
         end).
Proof.
  unfold is_quoted, getitem_last, getitem.
  destruct arg as [|c [|d r]]; [reflexivity | reflexivity |].
  rewrite get_last.
  change (1 <? String.length (String c (String d r)))%nat with true.
  cbn [String.get bind andb].
  destruct (last_char (String c (String d r))) as [z|] eqn:L.
  - cbn [bind]. now destruct (Ascii.eqb c z).
  - exfalso. clear -L. revert c d L.
    induction r as [|e r IH]; intros c d L; [discriminate L|].
    exact (IH d e L).
Qed.

Lemma char_in_QUOTES (c : ascii) : char_in c QUOTES = true <-> In c QUOTES.
Proof.
  unfold char_in. rewrite existsb_exists. split.
  - intros [x [Hx E]]. apply Ascii.eqb_eq in E. now subst.
  - intros H. exists c. split; [assumption | apply Ascii.eqb_refl].
Qed.

Lemma is_quoted_true (arg : string) :
  is_quoted arg = Ok true <->
  1 < String.length arg /\
  exists c, String.get 0 arg = Some c /\ last_char arg = Some c /\ In c QUOTES.
Proof.
  rewrite is_quoted_value. split.
  - intros [= H]. apply andb_true_iff in H as [Hlen H].
    apply Nat.ltb_lt in Hlen. split; [assumption|].
    destruct (String.get 0 arg) as [a|]; [|discriminate].
    destruct (last_char arg) as [z|]; [|discriminate].
    apply andb_true_iff in H as [E Q]. apply Ascii.eqb_eq in E. subst z.
    exists a. repeat split. now apply char_in_QUOTES.
  - intros [Hlen [c [-> [-> Q]]]]. f_equal.
    apply Nat.ltb_lt in Hlen. rewrite Hlen, Ascii.eqb_refl. simpl.
    now apply char_in_QUOTES.
Qed.

Lemma is_quoted_total (arg : string) :
  is_quoted arg = Ok true \/ is_quoted arg = Ok false.
Proof.
  rewrite is_quoted_value.
  match goal with |- Ok ?b = _ \/ _ => destruct b end; auto.
Qed.

Lemma is_quoted_shape (arg : string) :
  is_quoted arg = Ok true ->
  exists q body, In q QUOTES /\ arg = String q (body ++ String q "").
Proof.
  intros H. apply is_quoted_true in H as [Hlen [c [G [L Q]]]].
  destruct arg as [|a r]; [discriminate G|].
  injection G as ->.
  destruct r as [|d r]; [simpl in Hlen; lia|].
  change (last_char (String d r) = Some c) in L.
  destruct (last_char_split _ L) as [body E].
  exists c, body. split; [assumption | now rewrite E].
Qed.

Lemma is_quoted_wrapped (q : ascii) (body : string) :
  In q QUOTES -> is_quoted (String q (body ++ String q "")) = Ok true.
Proof.
  intros Q. apply is_quoted_true. split.
  - simpl. rewrite length_append. simpl. lia.
  - exists q. repeat split; [|assumption].
    exact (last_char_append (String q body) q).
Qed.

Lemma slice_wrapped (q z : ascii) (body : string) :
  slice_1_m1 (String q (body ++ String z "")) = body.
Proof.
  unfold slice_1_m1. simpl String.length. rewrite length_append. simpl.
  replace (String.length body + 1 - 1) with (String.length body) by lia.
  apply substring_prefix.
Qed.

Lemma strip_quotes_wrapped (q : ascii) (body : string) :
  In q QUOTES -> strip_quotes (String q (body ++ String q "")) = Ok body.
Proof.
  intros Q. unfold strip_quotes. rewrite (is_quoted_wrapped body Q).
  simpl. now rewrite slice_wrapped.
Qed.

Lemma not_quoted_without_quotes (s : string) :
  contains dquote s = false -> contains squote s = false ->
  is_quoted s = Ok false.
Proof.
  intros D S. destruct (is_quoted_total s) as [H|H]; [|assumption].
  apply is_quoted_true in H as [_ [c [_ [L Q]]]].
  apply contains_last in L.
  destruct Q as [<-|[<-|[]]]; congruence.
Qed.

End Quotes.

(** C8: [is_quoted arg] holds exactly when [arg] has more than one
    character, its first and last characters are equal and the first one is
    a quote character; it never raises, and no string of length 0 or 1 is
    quoted.  [strip_quotes] takes one quote from each end of a quoted string
    and returns any other string as it is. *)
Theorem is_quoted_strip_quotes_spec :
  (forall arg,
      is_quoted arg = Ok true <->
      1 < String.length arg /\
      exists c, String.get 0 arg = Some c /\ last_char arg = Some c
                /\ In c QUOTES)
  /\ (forall arg, is_quoted arg = Ok true \/ is_quoted arg = Ok false)
  /\ (forall arg, String.length arg <= 1 -> is_quoted arg = Ok false)
  /\ (forall arg,
         is_quoted arg = Ok true ->
         exists q body,
           In q QUOTES /\ arg = String q (body ++ String q "")
           /\ strip_quotes arg = Ok body)
  /\ (forall arg, is_quoted arg = Ok false -> strip_quotes arg = Ok arg).
Proof.
  split; [exact is_quoted_true|].
  split; [exact is_quoted_total|].
  split; [|split].
  - intros arg Hlen. rewrite is_quoted_value.
    destruct arg as [|c [|d r]]; [reflexivity | reflexivity | simpl in Hlen; lia].
  - intros arg H. destruct (is_quoted_shape arg H) as [q [body [Q ->]]].
    exists q, body. repeat split; [assumption|].
    now apply strip_quotes_wrapped.
  - intros arg H. unfold strip_quotes. now rewrite H.
Qed.

Lemma is_quoted_strip_quotes_spec_witness :
  exists q body,
    In q QUOTES /\ "'a b'" = String q (body ++ String q "")
    /\ strip_quotes "'a b'" = Ok body.
Proof.
  exact (proj1 (proj2 (proj2 (proj2 is_quoted_strip_quotes_spec)))
               "'a b'" eq_refl).
Defined.

(** C2, as the claim states it, fails on a string that is quoted already:
    ['a b'] in single quotes holds a space and no double quote, and comes
    back as it is instead of wrapped in double quotes. *)
Lemma quote_string_if_needed_counterexample :
  contains " " "'a b'" = true
  /\ contains dquote "'a b'" = false
  /\ quote_string_if_needed "'a b'" = Ok "'a b'"
  /\ quote_string_if_needed "'a b'"
     <> Ok (String dquote ("'a b'" ++ String dquote "")).
Proof.
  repeat split; discriminate.
Qed.

(** C2, amended: for every string that is not quoted already and contains
    a space, [quote_string_if_needed] returns the string wrapped in double
    quotes when it holds no double quote, and wrapped in single quotes when
    it holds one; a string that is quoted already is returned as it is. *)
Theorem quote_string_if_needed_spec (s : string) :
  (is_quoted s = Ok false ->
   contains " " s = true ->
   (contains dquote s = false ->
    quote_string_if_needed s = Ok (String dquote (s ++ String dquote "")))
   /\ (contains dquote s = true ->
       quote_string_if_needed s = Ok (String squote (s ++ String squote ""))))
  /\ (is_quoted s = Ok true -> quote_string_if_needed s = Ok s).
Proof.
  unfold quote_string_if_needed. split.
  - intros Q S. rewrite Q. cbn [bind]. rewrite S. cbn [negb orb].
    split; intros D; now rewrite D.
  - intros Q. now rewrite Q.
Qed.

Lemma quote_string_if_needed_spec_witness :
  quote_string_if_needed "a b" = Ok (String dquote ("a b" ++ String dquote ""))
  /\ quote_string_if_needed (String dquote "a b")
     = Ok (String squote (String dquote "a b" ++ String squote "")).
Proof.
  split.
  - exact (proj1 (proj1 (quote_string_if_needed_spec "a b") eq_refl eq_refl)
                 eq_refl).
  - exact (proj2 (proj1 (quote_string_if_needed_spec (String dquote "a b"))
                        eq_refl eq_refl) eq_refl).
Defined.

(** C4: for every string [s] without a quote character,
    [strip_quotes (quote_string_if_needed s)] is [s]. *)
Theorem strip_quotes_quote_string_if_needed (s : string) :
  contains dquote s = false ->
  contains squote s = false ->
  (q <- quote_string_if_needed s ;; strip_quotes q) = Ok s.
Proof.
  intros D S. pose proof (not_quoted_without_quotes s D S) as NQ.
  unfold quote_string_if_needed. rewrite NQ. cbn [bind orb].
  destruct (contains " " s); cbn [negb bind].
  - rewrite D. apply strip_quotes_wrapped. now left.
  - unfold strip_quotes. now rewrite NQ.
Qed.

Lemma strip_quotes_quote_string_if_needed_witness :
  (q <- quote_string_if_needed "a b" ;; strip_quotes q) = Ok "a b".
Proof.
  exact (strip_quotes_quote_string_if_needed "a b" eq_refl eq_refl).
Defined.


(** ** Type coercion *)

Section Cast.

Lemma int_raises_value_error (s : string) (e : exn) :
  PyStr.int s = Raise e -> e = ValueError.
Proof.
  unfold PyStr.int.
  destruct (match PyStr.strip s with
            | String c r =>
                if Ascii.eqb c "+" then (false, r)
                else if Ascii.eqb c "-" then (true, r)
                else (false, PyStr.strip s)
            | EmptyString => (false, PyStr.strip s)
            end) as [negative body].
  destruct (PyStr.int_max_str_digits <? PyStr.count_digits body)%nat;
    [congruence|].
  destruct (PyStr.digits body 0 false); [discriminate | congruence].
Qed.

Lemma lower_nonempty (c : ascii) (r : string) :
  PyStr.lower (String c r) = String (PyStr.lower_char c) (PyStr.lower r).
Proof. reflexivity. Qed.

(** On a non-empty [new], [cast] to a boolean follows [bool_vocabulary]. *)
Lemma cast_bool_nonempty (b : bool) (new : string) :
  new <> "" -> cast (VBool b) new = bool_vocabulary b new.
Proof.
  intros NE. unfold cast, bool_vocabulary.
  destruct (PyStr.int new) as [n|e] eqn:I; [reflexivity|].
  apply int_raises_value_error in I. subst e.
  destruct new as [|c r]; [congruence|].
  rewrite lower_nonempty.
  set (l := String (PyStr.lower_char c) (PyStr.lower r)).
  unfold getitem, char_in, begins_with, or_else, l.
  cbn [bind try_except_pass seq_block existsb exn_eqb orb String.get
       falls_through returns].
  destruct (String.eqb _ "on"); cbn [bind orb]; [reflexivity|].
  destruct (Ascii.eqb (PyStr.lower_char c) "y"); cbn [orb]; [reflexivity|].
  destruct (Ascii.eqb (PyStr.lower_char c) "t"); cbn [orb]; [reflexivity|].
  destruct (String.eqb _ "off"); cbn [bind orb]; [reflexivity|].
  destruct (Ascii.eqb (PyStr.lower_char c) "n"); cbn [orb]; [reflexivity|].
  destruct (Ascii.eqb (PyStr.lower_char c) "f"); reflexivity.
Qed.

(** Outside the boolean case with an empty [new], [cast] returns when the
    text of [current] can be written. *)
Lemma cast_returns (current : value) (new : string) :
  (forall b, current = VBool b -> new <> "") ->
  printable current = true ->
  exists v, ended (cast current new) = Ok v.
Proof.
  intros NE P. destruct current as [b|z|s].
  - rewrite (cast_bool_nonempty b (NE b eq_refl)). unfold bool_vocabulary.
    destruct (PyStr.int new); [now eexists|].
    repeat match goal with
           | |- context [if ?c then _ else _] => destruct c
           end; now eexists.
  - unfold cast, construct, problem_message, str_of_value, PyStr.str_of_int.
    destruct (PyStr.int new) as [n|e] eqn:I; [now eexists|].
    apply int_raises_value_error in I. subst e.
    cbn [bind try_except_pass existsb exn_eqb orb falls_through].
    unfold printable, short_int in P. apply Nat.leb_le in P.
    apply Nat.ltb_ge in P. rewrite P. now eexists.
  - now eexists.
Qed.

End Cast.

(** C1: [cast] does raise.  For a boolean [current] and the empty string,
    [int] fails, and then [new[0]] raises an [IndexError] that the handler
    for [AttributeError] lets through; nothing is printed.  The other half
    of the claim holds: [cast 5 "abc"] prints the diagnostic and returns 5. *)
Theorem cast_bool_empty_raises :
  cast (VBool true) "" = {| printed := []; ended := Raise IndexError |}
  /\ cast (VInt 5) "abc"
     = {| printed :=
            ["Problem setting parameter (now 5) to abc; incorrect type?"];
          ended := Ok (VInt 5) |}.
Proof.
  split; reflexivity.
Qed.

(** C3, as the claim states it, fails: ["2"] is neither ["1"] nor ["on"]
    and begins with neither [y] nor [t], yet [cast False "2"] is [True], not
    the current value. *)
Lemma cast_bool_counterexample :
  cast (VBool false) "2" = returned (VBool true)
  /\ "2" <> "1"
  /\ PyStr.lower "2" <> "on"
  /\ begins_with "y" (PyStr.lower "2") = false
  /\ begins_with "t" (PyStr.lower "2") = false.
Proof.
  repeat split; discriminate.
Qed.

(** C3, amended: for a boolean [current] and a non-empty [new], [cast]
    returns whether the integer is non-zero when [new] reads as an integer;
    otherwise [True] when [new] in lower case is ["on"] or begins with [y]
    or [t], otherwise [False] when it is ["off"] or begins with [n] or [f],
    and otherwise the current value after printing the diagnostic.  So
    [cast True "0"] is [False] and [cast True "on"] is [True]. *)
Theorem cast_bool_spec :
  (forall b new, new <> "" -> cast (VBool b) new = bool_vocabulary b new)
  /\ cast (VBool true) "0" = returned (VBool false)
  /\ cast (VBool true) "on" = returned (VBool true).
Proof.
  split; [exact cast_bool_nonempty | split; reflexivity].
Qed.

Lemma cast_bool_spec_witness :
  cast (VBool false) "Yes" = bool_vocabulary false "Yes"
  /\ bool_vocabulary false "Yes" = returned (VBool true).
Proof.
  split; [|reflexivity].
  apply (proj1 cast_bool_spec false "Yes"). discriminate.
Defined.

(** C10: for a boolean [current] and any [new] that reads as an integer,
    [cast] returns whether that integer is non-zero: [cast True "2"] and
    [cast True "-1"] are [True], [cast True "00"] is [False]. *)
Theorem cast_bool_of_integer :
  (forall b new n,
      PyStr.int new = Ok n ->
      cast (VBool b) new = returned (VBool (negb (n =? 0)%Z)))
  /\ cast (VBool true) "2" = returned (VBool true)
  /\ cast (VBool true) "-1" = returned (VBool true)
  /\ cast (VBool true) "00" = returned (VBool false).
Proof.
  split; [|repeat split; reflexivity].
  intros b new n I. unfold cast. now rewrite I.
Qed.

Lemma cast_bool_of_integer_witness :
  PyStr.int " -12 " = Ok (-12)%Z
  /\ cast (VBool false) " -12 " = returned (VBool true).
Proof.
  split; [reflexivity|].
  exact (proj1 cast_bool_of_integer false " -12 " (-12)%Z eq_refl).
Defined.

(** ** De-duplication *)

Section RemoveDuplicatesFacts.

Variables (A : Type) (eqb : A -> A -> bool).
Hypothesis eqb_spec : forall x y, eqb x y = true <-> x = y.

Let mem (x : A) (l : list A) : bool := existsb (eqb x) l.
Let add (ks : list A) (x : A) : list A := if mem x ks then ks else ks ++ [x].

Lemma mem_In (x : A) (l : list A) : mem x l = true <-> In x l.
Proof.
  unfold mem. rewrite existsb_exists. split.
  - intros [y [Hy E]]. apply eqb_spec in E. now subst.
  - intros H. exists x. split; [assumption | now apply eqb_spec].
Qed.

(** Storing [None] under [k] adds [k] to the keys unless it is there. *)
Lemma keys_setitem (d : OrderedDict.t A unit) (k : A) :
  OrderedDict.keys (OrderedDict.setitem eqb d k tt)
  = add (OrderedDict.keys d) k.
Proof.
  unfold add, mem, OrderedDict.keys.
  induction d as [|[k' v'] r IH]; [reflexivity|].
  simpl. destruct (eqb k k'); [reflexivity|].
  simpl. rewrite IH. now destruct (existsb (eqb k) (map fst r)).
Qed.

Lemma keys_fold (l : list A) (d : OrderedDict.t A unit) :
  OrderedDict.keys
    (fold_left (fun d item => OrderedDict.setitem eqb d item tt) l d)
  = fold_left add l (OrderedDict.keys d).
Proof.
  revert d. induction l as [|x r IH]; intros d; [reflexivity|].
  simpl. now rewrite IH, keys_setitem.
Qed.

(** The keys found after a prefix [pre] of the input was read, when [ks]
    holds the values of [pre]. *)
Lemma fold_add_first (l pre ks : list A) :
  (forall y, mem y ks = mem y pre) ->
  fold_left add l ks
  = ks ++ map snd
            (filter (fun '(i, x) => negb (mem x (firstn i (pre ++ l))))
                    (combine (seq (length pre) (length l)) l)).
Proof.
  revert pre ks. induction l as [|x r IH]; intros pre ks Hks.
  - simpl. now rewrite app_nil_r.
  - cbn [fold_left length seq combine filter].
    rewrite firstn_app, firstn_all, Nat.sub_diag. cbn [firstn].
    rewrite app_nil_r, <- Hks.
    assert (E : forall i, firstn i (pre ++ x :: r)
                          = firstn i ((pre ++ [x]) ++ r))
      by (intros i; now rewrite <- app_assoc).
    assert (L : S (length pre) = length (pre ++ [x]))
      by (rewrite length_app; simpl; lia).
    rewrite (filter_ext _ (fun '(i, y) =>
               negb (mem y (firstn i ((pre ++ [x]) ++ r)))))
      by (intros [i y]; now rewrite E).
    rewrite L. unfold add at 2.
    destruct (mem x ks) eqn:M; cbn [negb].
    + apply IH. intros y. unfold mem. rewrite existsb_app. simpl.
      rewrite orb_false_r. fold (mem y ks) (mem y pre). rewrite <- Hks.
      destruct (eqb y x) eqn:Y; [|now rewrite orb_false_r].
      apply eqb_spec in Y. subst y. now rewrite M.
    + rewrite (IH (pre ++ [x]) (ks ++ [x])).
      * cbn [map snd]. now rewrite <- app_assoc.
      * intros y. unfold mem. rewrite !existsb_app.
        fold (mem y ks) (mem y pre). now rewrite Hks.
Qed.

Lemma remove_duplicates_first (l : list A) :
  remove_duplicates eqb l = first_occurrences eqb l.
Proof.
  unfold remove_duplicates, first_occurrences.
  rewrite keys_fold. exact (fold_add_first l [] [] (fun _ => eq_refl)).
Qed.

Lemma fold_add_NoDup (l ks : list A) :
  NoDup ks -> NoDup (fold_left add l ks).
Proof.
  revert ks. induction l as [|x r IH]; intros ks N; [assumption|].
  simpl. apply IH. unfold add. destruct (mem x ks) eqn:M; [assumption|].
  apply NoDup_app; [assumption | repeat constructor; intros [] |].
  intros y Hy [<-|[]]. apply mem_In in Hy. congruence.
Qed.

Lemma fold_add_In (l ks : list A) (y : A) :
  In y (fold_left add l ks) <-> In y ks \/ In y l.
Proof.
  revert ks. induction l as [|x r IH]; intros ks; [simpl; tauto|].
  simpl. rewrite IH. unfold add. destruct (mem x ks) eqn:M.
  - apply mem_In in M. split; [tauto|]. intros [H|[<-|H]]; auto.
  - rewrite in_app_iff. simpl. tauto.
Qed.

Lemma remove_duplicates_NoDup (l : list A) : NoDup (remove_duplicates eqb l).
Proof.
  unfold remove_duplicates. rewrite keys_fold.
  apply fold_add_NoDup. constructor.
Qed.

Lemma remove_duplicates_In (l : list A) (y : A) :
  In y (remove_duplicates eqb l) <-> In y l.
Proof.
  unfold remove_duplicates. rewrite keys_fold, fold_add_In. simpl. tauto.
Qed.

End RemoveDuplicatesFacts.

(** C7: [remove_duplicates] returns the items of its input whose value did
    not occur earlier, in their order in the input: every value of the input
    once, and nothing else.  [remove_duplicates [3,1,3,2,1]] is [[3,1,2]]. *)
Theorem remove_duplicates_spec :
  (forall (A : Type) (eqb : A -> A -> bool),
      (forall x y, eqb x y = true <-> x = y) ->
      forall l : list A,
        remove_duplicates eqb l = first_occurrences eqb l
        /\ NoDup (remove_duplicates eqb l)
        /\ (forall y, In y (remove_duplicates eqb l) <-> In y l))
  /\ remove_duplicates Z.eqb [3; 1; 3; 2; 1]%Z = [3; 1; 2]%Z.
Proof.
  split; [|reflexivity].
  intros A eqb H l. split; [|split].
  - now apply remove_duplicates_first.
  - now apply remove_duplicates_NoDup.
  - intros y. now apply remove_duplicates_In.
Qed.

Lemma remove_duplicates_spec_witness :
  remove_duplicates Z.eqb [2; 7; 2]%Z = first_occurrences Z.eqb [2; 7; 2]%Z
  /\ first_occurrences Z.eqb [2; 7; 2]%Z = [2; 7]%Z.
Proof.
  split; [|reflexivity].
  exact (proj1 (proj1 remove_duplicates_spec Z Z.eqb Z.eqb_eq [2; 7; 2]%Z)).
Defined.

(** ** Text files *)

Section TextFileFacts.

Import PyCodecs.

Lemma count_lines_positive (t : text) :
  t <> [] -> (0 <? count_lines t false)%nat = true.
Proof.
  assert (G : forall (t : text) (pending : bool),
             t <> [] \/ pending = true -> 0 < count_lines t pending).
  { induction t0 as [|c r IH]; intros pending H.
    - destruct H as [H| ->]; [congruence | simpl; lia].
    - cbn [count_lines]. destruct (c =? 13)%N.
      + destruct r as [|c' r']; [lia|]. destruct (c' =? 10)%N; lia.
      + destruct (is_linebreak c); [lia|]. apply IH. now right. }
  intros H. apply Nat.ltb_lt. apply G. now left.
Qed.

Lemma ascii_decode_raises (data : list Byte.byte) (e : exn) :
  ascii_decode data = Raise e -> e = UnicodeDecodeError.
Proof.
  induction data as [|b r IH]; [discriminate|].
  cbn [ascii_decode]. destruct (byte_code b <? 128)%N; [|congruence].
  destruct (ascii_decode r); [discriminate|].
  intros [= <-]. now apply IH.
Qed.

Lemma ascii_decode_length (data : list Byte.byte) (t : text) :
  ascii_decode data = Ok t -> length t = length data.
Proof.
  revert t. induction data as [|b r IH]; intros t.
  - now intros [= <-].
  - cbn [ascii_decode]. destruct (byte_code b <? 128)%N; [|discriminate].
    destruct (ascii_decode r) as [t'|]; [|discriminate].
    intros [= <-]. simpl. now rewrite (IH t').
Qed.

Lemma ascii_decode_ok (data : list Byte.byte) :
  forallb (fun b => (byte_code b <? 128)%N) data = true ->
  exists t, ascii_decode data = Ok t.
Proof.
  induction data as [|b r IH]; [now exists []|].
  cbn [forallb ascii_decode]. intros H.
  apply andb_true_iff in H as [-> H].
  destruct (IH H) as [t ->]. now eexists.
Qed.

Ltac decoder_cases :=
  repeat match goal with
         | |- context [if ?c then _ else _] => destruct c
         | |- context [match ?r with [] => _ | _ :: _ => _ end] =>
             is_var r; destruct r
         end.

(** Both modes of the UTF-8 decoder raise nothing but
    [UnicodeDecodeError]. *)
Lemma utf_8_decode_raises (final : bool) (n : nat) :
  forall (data : list Byte.byte) (e : exn),
    length data <= n ->
    utf_8_decode final data = Raise e -> e = UnicodeDecodeError.
Proof.
  induction n as [|n IH]; intros data e L;
    (destruct data as [|b0 r0]; [discriminate|]); simpl in L; [lia|].
  cbn [utf_8_decode]. unfold unexpected_end. decoder_cases;
    try discriminate; try congruence;
    match goal with
    | |- context [utf_8_decode ?f ?r] =>
        pose proof (IH r) as IHr;
        destruct (utf_8_decode f r); [discriminate|];
        intros [= <-]; apply IHr; [simpl in L; lia | reflexivity]
    end.
Qed.

(** What decodes as a whole decodes the same as a stream. *)
Lemma utf_8_decode_final_stream (n : nat) :
  forall (data : list Byte.byte) (t : text),
    length data <= n ->
    utf_8_decode true data = Ok t -> utf_8_decode false data = Ok t.
Proof.
  induction n as [|n IH]; intros data t L;
    (destruct data as [|b0 r0]; [trivial|]); simpl in L; [lia|].
  cbn [utf_8_decode]. unfold unexpected_end. cbn [negb andb].
  decoder_cases; try discriminate;
    match goal with
    | |- context [utf_8_decode true ?r] =>
        pose proof (IH r) as IHr;
        destruct (utf_8_decode true r) as [t'|]; [|discriminate];
        rewrite (IHr t'); [trivial | simpl in L; lia | reflexivity]
    end.
Qed.

Variable fs : string -> result (list Byte.byte).
Variable expand_path : string -> string.

(** A file that cannot be read is not a text file. *)
Lemma is_text_file_unreadable (file_path : string) :
  fs (expand_path file_path) = Raise OSError ->
  is_text_file fs expand_path file_path = Ok false.
Proof.
  intros H. unfold is_text_file, has_a_line. now rewrite H.
Qed.

(** A file whose content meets the spec's wording is a text file. *)
Lemma is_text_file_complete (file_path : string) (data : list Byte.byte) :
  fs (expand_path file_path) = Ok data ->
  is_text_content data = true ->
  is_text_file fs expand_path file_path = Ok true.
Proof.
  intros F. unfold is_text_content, is_text_file, has_a_line, strict_decode,
    stream_decode. rewrite F. cbn [bind].
  destruct (ascii_decode data) as [t|e] eqn:D; cbn [bind].
  - now intros ->.
  - apply ascii_decode_raises in D. subst e.
    destruct (utf_8_decode true data) as [t|] eqn:U; [|discriminate].
    rewrite (@utf_8_decode_final_stream (length data) data t (le_n _) U). cbn [bind].
    now intros ->.
Qed.

(** A non-empty file of ASCII bytes is a text file. *)
Lemma is_text_file_ascii (file_path : string) (data : list Byte.byte) :
  fs (expand_path file_path) = Ok data ->
  data <> [] ->
  forallb (fun b => (byte_code b <? 128)%N) data = true ->
  is_text_file fs expand_path file_path = Ok true.
Proof.
  intros F NE H. unfold is_text_file, has_a_line, stream_decode.
  rewrite F. cbn [bind].
  destruct (ascii_decode_ok data H) as [t D]. rewrite D. cbn [bind].
  rewrite count_lines_positive; [reflexivity|].
  apply ascii_decode_length in D. destruct t; [|discriminate].
  destruct data; [congruence | discriminate].
Qed.

(** No exception leaves [is_text_file] when the file system raises nothing
    but [OSError]. *)
Lemma is_text_file_returns (file_path : string) :
  (forall p e, fs p = Raise e -> e = OSError) ->
  exists b, is_text_file fs expand_path file_path = Ok b.
Proof.
  intros FS. unfold is_text_file, has_a_line, stream_decode.
  destruct (fs (expand_path file_path)) as [data|e] eqn:F.
  - cbn [bind].
    destruct (ascii_decode data) as [t|e] eqn:D; cbn [bind]; [now eexists|].
    apply ascii_decode_raises in D. subst e.
    destruct (utf_8_decode false data) as [t|e] eqn:U; cbn [bind];
      [now eexists|].
    apply (@utf_8_decode_raises false (length data) data e (le_n _)) in U.
    subst e. now eexists.
  - apply FS in F. subst e. now eexists.
Qed.

End TextFileFacts.

(** C9: the claim is right about what the function is for, and the code
    misses it on a file that ends inside a UTF-8 sequence.  The bytes
    0x61 0xC3 decode neither as ASCII nor as UTF-8, and hold no text by the
    spec's wording; the stream reader leaves the cut sequence undecoded
    without an error, one line is counted and [is_text_file] answers
    [True]. *)
Theorem is_text_file_truncated_sequence :
  let data := [Byte.x61; Byte.xc3] in
  forall expand_path : string -> string,
    is_text_file (fun _ => Ok data) expand_path "notes.txt" = Ok true
    /\ PyCodecs.strict_decode PyCodecs.Ascii data = Raise UnicodeDecodeError
    /\ PyCodecs.strict_decode PyCodecs.Utf8 data = Raise UnicodeDecodeError
    /\ is_text_content data = false.
Proof.
  intros data expand_path. repeat split; reflexivity.
Qed.

(** ** The order on keys *)

Section KeyOrder.

Lemma ascii_compare_refl (c : ascii) : Ascii.compare c c = Eq.
Proof. apply N.compare_refl. Qed.

Lemma ascii_compare_trans (c d e : ascii) :
  Ascii.compare c d = Lt -> Ascii.compare d e = Lt -> Ascii.compare c e = Lt.
Proof.
  unfold Ascii.compare. rewrite !N.compare_lt_iff. apply N.lt_trans.
Qed.

Lemma string_compare_refl (s : string) : String.compare s s = Eq.
Proof.
  induction s as [|c s IH]; [reflexivity|].
  simpl. now rewrite ascii_compare_refl.
Qed.

Lemma string_compare_trans (s t u : string) :
  String.compare s t = Lt -> String.compare t u = Lt ->
  String.compare s u = Lt.
Proof.
  revert t u. induction s as [|c s IH]; intros [|d t] [|e u];
    try discriminate; try reflexivity.
  simpl.
  destruct (Ascii.compare c d) eqn:CD; try discriminate;
    destruct (Ascii.compare d e) eqn:DE; try discriminate.
  - apply Ascii.compare_eq_iff in CD, DE. subst d e.
    rewrite ascii_compare_refl. apply IH.
  - apply Ascii.compare_eq_iff in CD. subst d. now rewrite DE.
  - apply Ascii.compare_eq_iff in DE. subst e. now rewrite CD.
  - now rewrite (ascii_compare_trans _ _ _ CD DE).
Qed.

Lemma part_compare_refl (x : key_part) : part_compare x x = Eq.
Proof.
  destruct x; simpl; [apply Z.compare_refl | apply string_compare_refl].
Qed.

Lemma part_compare_eq (x y : key_part) : part_compare x y = Eq -> x = y.
Proof.
  destruct x, y; simpl; try discriminate; intros H.
  - apply Z.compare_eq in H. now subst.
  - apply String.compare_eq_iff in H. now subst.
Qed.

Lemma part_compare_antisym (x y : key_part) :
  part_compare y x = CompOpp (part_compare x y).
Proof.
  destruct x, y; simpl; try reflexivity.
  - apply Z.compare_antisym.
  - apply String.compare_antisym.
Qed.

Lemma part_compare_trans (x y z : key_part) :
  part_compare x y = Lt -> part_compare y z = Lt -> part_compare x z = Lt.
Proof.
  destruct x, y, z; simpl; try discriminate; try reflexivity.
  - rewrite !Z.compare_lt_iff. apply Z.lt_trans.
  - apply string_compare_trans.
Qed.

Lemma key_compare_refl (a : list key_part) : key_compare a a = Eq.
Proof.
  induction a as [|x a IH]; [reflexivity|].
  simpl. now rewrite part_compare_refl.
Qed.

Lemma key_compare_eq (a b : list key_part) : key_compare a b = Eq -> a = b.
Proof.
  revert b. induction a as [|x a IH]; intros [|y b]; try discriminate;
    [reflexivity|].
  simpl. destruct (part_compare x y) eqn:C; try discriminate.
  intros H. apply part_compare_eq in C. apply IH in H. now subst.
Qed.

Lemma key_compare_antisym (a b : list key_part) :
  key_compare b a = CompOpp (key_compare a b).
Proof.
  revert b. induction a as [|x a IH]; intros [|y b]; try reflexivity.
  simpl. rewrite (part_compare_antisym x y).
  destruct (part_compare x y); simpl; [apply IH | reflexivity | reflexivity].
Qed.

Lemma key_compare_trans (a b c : list key_part) :
  key_compare a b = Lt -> key_compare b c = Lt -> key_compare a c = Lt.
Proof.
  revert b c. induction a as [|x a IH]; intros [|y b] [|z c];
    try discriminate; try reflexivity.
  simpl.
  destruct (part_compare x y) eqn:XY; try discriminate;
    destruct (part_compare y z) eqn:YZ; try discriminate.
  - apply part_compare_eq in XY, YZ. subst y z.
    rewrite part_compare_refl. apply IH.
  - apply part_compare_eq in XY. subst y. now rewrite YZ.
  - apply part_compare_eq in YZ. subst z. now rewrite XY.
  - now rewrite (part_compare_trans _ _ _ XY YZ).
Qed.

Lemma key_ltb_asym (a b : list key_part) :
  key_ltb a b = true -> key_ltb b a = false.
Proof.
  unfold key_ltb. rewrite (key_compare_antisym a b).
  now destruct (key_compare a b).
Qed.

(** When neither [a < b] nor [b < c], then not [a < c]. *)
Lemma key_ltb_negative_trans (a b c : list key_part) :
  key_ltb a b = false -> key_ltb b c = false -> key_ltb a c = false.
Proof.
  unfold key_ltb. intros AB BC.
  destruct (key_compare a b) eqn:CAB; try discriminate.
  - apply key_compare_eq in CAB. now subst b.
  - destruct (key_compare b c) eqn:CBC; try discriminate.
    + apply key_compare_eq in CBC. subst c. now rewrite CAB.
    + assert (BA : key_compare b a = Lt)
        by (rewrite (key_compare_antisym a b), CAB; reflexivity).
      assert (CB : key_compare c b = Lt)
        by (rewrite (key_compare_antisym b c), CBC; reflexivity).
      pose proof (key_compare_trans _ _ _ CB BA) as CA.
      rewrite (key_compare_antisym c a), CA. reflexivity.
Qed.

(** [==] is the equality of [part_compare]. *)
Lemma py_eq_compare (x y : key_part) :
  PyCmp.eq x y = match part_compare x y with Eq => true | _ => false end.
Proof.
  destruct x as [m|s], y as [n|t]; simpl; try reflexivity.
  - rewrite Z.eqb_compare. reflexivity.
  - destruct (String.eqb_spec s t) as [->|NE].
    + now rewrite string_compare_refl.
    + destruct (String.compare s t) eqn:C; try reflexivity.
      apply String.compare_eq_iff in C. contradiction.
Qed.

(** [<] on two parts of one type does not raise and is the order of
    [part_compare]. *)
Lemma py_lt_compare (x y : key_part) :
  same_type x y = true ->
  PyCmp.lt x y = Ok (match part_compare x y with Lt => true | _ => false end).
Proof.
  destruct x as [m|s], y as [n|t]; simpl; try discriminate; intros _.
  - unfold Z.ltb. reflexivity.
  - reflexivity.
Qed.

Lemma alternates_same_type (w : bool) (x y : key_part) (a b : list key_part) :
  alternates w (x :: a) = true -> alternates w (y :: b) = true ->
  same_type x y = true
  /\ alternates (negb w) a = true /\ alternates (negb w) b = true.
Proof.
  destruct x, y, w; simpl; try discriminate; auto.
Qed.

(** On two keys of the same alternation, the comparison of Python lists
    does not raise and is [key_ltb]. *)
Lemma list_lt_key_ltb (a b : list key_part) (w : bool) :
  alternates w a = true -> alternates w b = true ->
  PyCmp.list_lt a b = Ok (key_ltb a b).
Proof.
  revert b w. induction a as [|x a IH]; intros [|y b] w A B;
    try reflexivity.
  destruct (alternates_same_type w x y a b A B) as [T [A' B']].
  cbn [PyCmp.list_lt]. unfold key_ltb. cbn [key_compare].
  rewrite py_eq_compare, (py_lt_compare x y T).
  destruct (part_compare x y); try reflexivity.
  exact (IH b (negb w) A' B').
Qed.

End KeyOrder.


(** ** Natural sort keys *)

Section NaturalKeys.

Import PyStr.

Lemma digit_not_space (c : ascii) : is_digit c = true -> is_space c = false.
Proof.
  unfold is_digit, is_space, in_range. intros H.
  apply andb_true_iff in H as [L U]. apply N.leb_le in L, U.
  repeat (apply orb_false_iff; split);
    [apply andb_false_iff; right; apply N.leb_gt; lia
    | apply N.eqb_neq; lia..].
Qed.

Lemma digit_not_sign (c : ascii) :
  is_digit c = true -> Ascii.eqb c "+" = false /\ Ascii.eqb c "-" = false.
Proof.
  intros H. split; apply Ascii.eqb_neq; intros ->; discriminate H.
Qed.

Lemma rstrip_digits (p : string) : all_of is_digit p = true -> rstrip p = p.
Proof.
  induction p as [|c r IH]; [reflexivity|].
  cbn [all_of rstrip]. intros H. apply andb_true_iff in H as [C R].
  rewrite (IH R). destruct r; [|reflexivity].
  now rewrite (digit_not_space c C).
Qed.

Lemma strip_digits (p : string) : all_of is_digit p = true -> strip p = p.
Proof.
  intros H. unfold strip.
  assert (L : lstrip p = p).
  { destruct p as [|c r]; [reflexivity|]. cbn [all_of] in H.
    apply andb_true_iff in H as [C _]. simpl.
    now rewrite (digit_not_space c C). }
  rewrite L. now apply rstrip_digits.
Qed.

Lemma digits_of_run (p : string) (acc : Z) (after_digit : bool) :
  all_of is_digit p = true ->
  digits p acc after_digit
  = if nonempty p || after_digit then Some (decimal_value acc p) else None.
Proof.
  revert acc after_digit. induction p as [|c r IH]; intros acc b H.
  - simpl. now destruct b.
  - cbn [all_of] in H. apply andb_true_iff in H as [C R].
    cbn [digits decimal_value nonempty orb]. rewrite C, (IH _ _ R).
    now rewrite orb_true_r.
Qed.

Lemma count_digits_run (p : string) :
  all_of is_digit p = true -> count_digits p = String.length p.
Proof.
  induction p as [|c r IH]; [reflexivity|].
  cbn [all_of count_digits String.length]. intros H.
  apply andb_true_iff in H as [C R]. now rewrite C, (IH R).
Qed.

Lemma count_digits_text (p : string) :
  none_of is_digit p = true -> count_digits p = 0.
Proof.
  induction p as [|c r IH]; [reflexivity|].
  cbn [none_of count_digits]. intros H.
  apply andb_true_iff in H as [C R]. apply negb_true_iff in C.
  now rewrite C, (IH R).
Qed.

(** [int] reads a run of digits as the number it denotes, when the run is
    not longer than the limit. *)
Lemma int_of_run (p : string) :
  all_of is_digit p = true -> nonempty p = true ->
  String.length p <= int_max_str_digits ->
  int p = Ok (decimal_value 0 p).
Proof.
  intros H NE L. unfold int. rewrite (strip_digits p H).
  destruct p as [|c r]; [discriminate NE|].
  pose proof H as H'. cbn [all_of] in H'.
  apply andb_true_iff in H' as [C _].
  destruct (digit_not_sign c C) as [-> ->].
  rewrite (count_digits_run _ H), (proj2 (Nat.ltb_ge _ _) L).
  now rewrite (digits_of_run _ 0 false H).
Qed.

(** [int] refuses a run of digits that is longer than the limit. *)
Lemma int_of_long_run (p : string) :
  all_of is_digit p = true -> int_max_str_digits < String.length p ->
  int p = Raise ValueError.
Proof.
  intros H L. unfold int. rewrite (strip_digits p H).
  destruct p as [|c r]; [simpl in L; lia|].
  pose proof H as H'. cbn [all_of] in H'.
  apply andb_true_iff in H' as [C _].
  destruct (digit_not_sign c C) as [-> ->].
  now rewrite (count_digits_run _ H), (proj2 (Nat.ltb_lt _ _) L).
Qed.

Lemma lstrip_no_digit (p : string) :
  none_of is_digit p = true -> none_of is_digit (lstrip p) = true.
Proof.
  induction p as [|c r IH]; [reflexivity|].
  intros H. simpl. destruct (is_space c); [|assumption].
  apply IH. cbn [none_of] in H. now apply andb_true_iff in H as [_ R].
Qed.

Lemma rstrip_no_digit (p : string) :
  none_of is_digit p = true -> none_of is_digit (rstrip p) = true.
Proof.
  induction p as [|c r IH]; [reflexivity|].
  cbn [none_of rstrip]. intros H. apply andb_true_iff in H as [C R].
  specialize (IH R). destruct (rstrip r).
  - destruct (is_space c); [reflexivity|]. simpl. now rewrite C.
  - change (negb (is_digit c) && none_of is_digit (String a s) = true).
    now rewrite C, IH.
Qed.

Lemma digits_no_digit (p : string) (acc : Z) :
  none_of is_digit p = true -> digits p acc false = None.
Proof.
  destruct p as [|c r]; [reflexivity|].
  cbn [none_of digits]. intros H. apply andb_true_iff in H as [C _].
  apply negb_true_iff in C. now rewrite C, andb_false_r.
Qed.

(** [int] refuses a text without digits. *)
Lemma int_of_text (p : string) :
  none_of is_digit p = true -> int p = Raise ValueError.
Proof.
  intros H. unfold int, strip.
  pose proof (rstrip_no_digit _ (lstrip_no_digit _ H)) as S.
  assert (Z0 : forall b, none_of is_digit b = true ->
                         (int_max_str_digits <? count_digits b)%nat = false).
  { intros b B. rewrite (count_digits_text b B). apply Nat.ltb_ge. lia. }
  destruct (rstrip (lstrip p)) as [|c r];
    [now rewrite (Z0 "" eq_refl)|].
  assert (R : none_of is_digit r = true)
    by (cbn [none_of] in S; now apply andb_true_iff in S as [_ R]).
  destruct (Ascii.eqb c "+");
    [now rewrite (Z0 r R), (digits_no_digit r 0 R)|].
  destruct (Ascii.eqb c "-");
    [now rewrite (Z0 r R), (digits_no_digit r 0 R)|].
  now rewrite (Z0 _ S), (digits_no_digit _ 0 S).
Qed.

Lemma none_of_append (p : ascii -> bool) (s t : string) :
  none_of p (s ++ t) = none_of p s && none_of p t.
Proof.
  induction s as [|c s IH]; [reflexivity|].
  simpl. now rewrite IH, andb_assoc.
Qed.

Lemma all_of_append (p : ascii -> bool) (s t : string) :
  all_of p (s ++ t) = all_of p s && all_of p t.
Proof.
  induction s as [|c s IH]; [reflexivity|].
  simpl. now rewrite IH, andb_assoc.
Qed.

Lemma nonempty_append (s : string) (c : ascii) :
  nonempty (s ++ String c "") = true.
Proof. now destruct s. Qed.

Lemma split_runs_not_nil (s piece : string) (d : bool) :
  PyRe.split_runs s piece d <> [].
Proof.
  revert piece d. induction s as [|c r IH]; intros piece d.
  - simpl. now destruct d.
  - simpl. destruct (Bool.eqb (is_digit c) d); [apply IH | discriminate].
Qed.

Lemma split_on_digit_runs_cons (inner d : bool) (p : string)
  (r : list string) :
  r <> [] ->
  split_on_digit_runs inner d (p :: r)
  = piece_fits inner d p && split_on_digit_runs true (negb d) r.
Proof.
  destruct r; [congruence | reflexivity].
Qed.

Lemma split_runs_shape (s piece : string) (inner d : bool) :
  piece_fits inner d piece = true ->
  split_on_digit_runs inner d (PyRe.split_runs s piece d) = true.
Proof.
  revert piece inner d. induction s as [|c r IH]; intros piece inner d F.
  - destruct d; simpl in *.
    + now rewrite F.
    + now apply andb_true_iff in F as [-> _].
  - cbn [PyRe.split_runs]. destruct (Bool.eqb (is_digit c) d) eqn:E.
    + apply IH. apply Bool.eqb_prop in E. subst d. unfold piece_fits in *.
      destruct (is_digit c) eqn:C.
      * apply andb_true_iff in F as [A _].
        rewrite all_of_append, A, nonempty_append. simpl. now rewrite C.
      * apply andb_true_iff in F as [A _].
        rewrite none_of_append, A, nonempty_append. simpl.
        now rewrite C, orb_true_r.
    + rewrite split_on_digit_runs_cons by apply split_runs_not_nil.
      rewrite F. cbn [andb].
      assert (D : is_digit c = negb d)
        by (destruct (is_digit c), d; try discriminate; reflexivity).
      rewrite D. apply IH. unfold piece_fits. rewrite <- D.
      destruct (is_digit c) eqn:C; simpl; now rewrite C.
Qed.

Lemma append_empty_r (s : string) : (s ++ "")%string = s.
Proof.
  induction s as [|c s IH]; [reflexivity | simpl; now rewrite IH].
Qed.

Lemma append_snoc (s t : string) (c : ascii) :
  ((s ++ String c "") ++ t)%string = (s ++ String c t)%string.
Proof.
  induction s as [|e s IH]; [reflexivity | simpl; now rewrite IH].
Qed.


Variable norm_fold : string -> string.

Lemma try_int_of_run (p : string) :
  all_of is_digit p = true -> nonempty p = true ->
  String.length p <= int_max_str_digits ->
  try_int_or_force_to_lower_case norm_fold p = Ok (KInt (decimal_value 0 p)).
Proof.
  intros H NE L. unfold try_int_or_force_to_lower_case.
  now rewrite (int_of_run p H NE L).
Qed.

Lemma try_int_of_long_run (p : string) :
  all_of is_digit p = true -> int_max_str_digits < String.length p ->
  try_int_or_force_to_lower_case norm_fold p = Ok (KStr (norm_fold p)).
Proof.
  intros H L. unfold try_int_or_force_to_lower_case.
  now rewrite (int_of_long_run p H L).
Qed.

Lemma try_int_of_text (p : string) :
  none_of is_digit p = true ->
  try_int_or_force_to_lower_case norm_fold p = Ok (KStr (norm_fold p)).
Proof.
  intros H. unfold try_int_or_force_to_lower_case.
  now rewrite (int_of_text p H).
Qed.

(** The comprehension does not raise and builds [built_key_of_pieces]. *)
Lemma comprehension_pieces (pieces : list string) (inner d : bool) :
  split_on_digit_runs inner d pieces = true ->
  comprehension norm_fold pieces = Ok (built_key_of_pieces norm_fold d pieces).
Proof.
  revert inner d. induction pieces as [|p r IH]; intros inner d H;
    [reflexivity|].
  assert (P : (if d then all_of is_digit p && nonempty p
               else none_of is_digit p) = true
              /\ (r = [] \/ split_on_digit_runs true (negb d) r = true)).
  { destruct r as [|q r'].
    - simpl in H. apply andb_true_iff in H as [D N].
      apply negb_true_iff in D. subst d. auto.
    - rewrite split_on_digit_runs_cons in H by discriminate.
      apply andb_true_iff in H as [F R]. split; [|now right].
      unfold piece_fits in F. destruct d; [assumption|].
      now apply andb_true_iff in F as [-> _]. }
  destruct P as [P R]. cbn [comprehension built_key_of_pieces].
  assert (T : try_int_or_force_to_lower_case norm_fold p
              = Ok (if d
                    then if (String.length p <=? int_max_str_digits)%nat
                         then KInt (decimal_value 0 p)
                         else KStr (norm_fold p)
                    else KStr (norm_fold p))).
  { destruct d.
    - apply andb_true_iff in P as [A N].
      destruct (String.length p <=? int_max_str_digits)%nat eqn:L.
      + apply Nat.leb_le in L. now apply try_int_of_run.
      + apply Nat.leb_gt in L. now apply try_int_of_long_run.
    - now apply try_int_of_text. }
  rewrite T. cbn [bind].
  destruct R as [->|R]; [reflexivity|].
  now rewrite (IH true (negb d) R).
Qed.

(** [natural_keys] does not raise and builds [built_key]. *)
Lemma natural_keys_built (s : string) :
  natural_keys norm_fold s = Ok (built_key norm_fold s).
Proof.
  unfold natural_keys, built_key, PyRe.split_digits.
  apply (comprehension_pieces _ false false).
  now apply split_runs_shape.
Qed.

Lemma built_key_of_short (pieces : list string) (d : bool) :
  runs_short d pieces = true ->
  built_key_of_pieces norm_fold d pieces = key_of_pieces norm_fold d pieces.
Proof.
  revert d. induction pieces as [|p r IH]; intros d H; [reflexivity|].
  cbn [runs_short] in H. apply andb_true_iff in H as [L R].
  cbn [built_key_of_pieces key_of_pieces]. rewrite (IH _ R).
  destruct d; [|reflexivity]. cbn [negb orb] in L. now rewrite L.
Qed.

(** The runs of a string within the limit are pieces within the limit. *)
Lemma split_runs_within (s piece : string) (d : bool) (run : nat) :
  runs_within s run = true ->
  (if d then String.length piece = run /\ run <= int_max_str_digits
   else run = 0) ->
  runs_short d (PyRe.split_runs s piece d) = true.
Proof.
  revert piece d run. induction s as [|c r IH]; intros piece d run W I.
  - destruct d; cbn [PyRe.split_runs runs_short negb orb andb];
      [|reflexivity].
    destruct I as [-> I]. apply Nat.leb_le in I. now rewrite I.
  - cbn [runs_within] in W. cbn [PyRe.split_runs].
    destruct (is_digit c) eqn:C, d; cbn [Bool.eqb].
    + apply andb_true_iff in W as [L W]. apply Nat.leb_le in L.
      destruct I as [I _]. apply (IH _ true (S run) W).
      rewrite length_append. simpl. split; lia.
    + apply andb_true_iff in W as [L W]. apply Nat.leb_le in L. subst run.
      cbn [runs_short negb orb andb]. apply (IH _ true 1 W).
      simpl. split; [reflexivity | exact L].
    + destruct I as [I1 I2]. cbn [runs_short negb orb].
      subst run. apply Nat.leb_le in I2. rewrite I2. cbn [andb].
      now apply (IH _ false 0 W).
    + now apply (IH _ false 0 W).
Qed.

Lemma short_runs_pieces (s : string) :
  short_runs s = true -> runs_short false (PyRe.split_digits s) = true.
Proof.
  intros W. now apply (split_runs_within s "" false 0 W).
Qed.

Lemma built_key_short_runs (s : string) :
  short_runs s = true -> built_key norm_fold s = natural_key norm_fold s.
Proof.
  intros W. apply built_key_of_short. now apply short_runs_pieces.
Qed.

(** On a string whose runs of digits are within the limit, [natural_keys]
    computes [natural_key]. *)
Lemma natural_keys_value (s : string) :
  short_runs s = true ->
  natural_keys norm_fold s = Ok (natural_key norm_fold s).
Proof.
  intros W. rewrite natural_keys_built. now rewrite built_key_short_runs.
Qed.

Lemma key_of_pieces_alternates (pieces : list string) (d : bool) :
  alternates d (key_of_pieces norm_fold d pieces) = true.
Proof.
  revert d. induction pieces as [|p r IH]; intros d; [reflexivity|].
  cbn [key_of_pieces]. destruct d; cbn [alternates negb andb]; apply IH.
Qed.

Lemma key_of_pieces_length (pieces : list string) (d : bool) :
  length (key_of_pieces norm_fold d pieces) = length pieces.
Proof.
  revert d. induction pieces as [|p r IH]; intros d; [reflexivity|].
  simpl. now rewrite IH.
Qed.

Lemma split_on_digit_runs_parity (pieces : list string) (inner d : bool) :
  split_on_digit_runs inner d pieces = true ->
  Nat.odd (length pieces) = negb d.
Proof.
  revert inner d. induction pieces as [|p r IH]; intros inner d H;
    [discriminate H|].
  destruct r as [|q r'].
  - simpl in H. apply andb_true_iff in H as [D _]. now rewrite D.
  - rewrite split_on_digit_runs_cons in H by discriminate.
    apply andb_true_iff in H as [_ R]. apply IH in R.
    change (length (p :: q :: r')) with (S (length (q :: r'))).
    rewrite Nat.odd_succ, <- Nat.negb_odd, R. now destruct d.
Qed.

Lemma natural_key_alternates (s : string) :
  alternates false (natural_key norm_fold s) = true.
Proof. apply key_of_pieces_alternates. Qed.

Lemma natural_key_odd (s : string) :
  Nat.odd (length (natural_key norm_fold s)) = true.
Proof.
  unfold natural_key. rewrite key_of_pieces_length.
  apply (split_on_digit_runs_parity _ false false).
  now apply split_runs_shape.
Qed.

End NaturalKeys.

(** ** Sorting *)

Section SortedFacts.

Variables (A K : Type).
Variables (lt : K -> K -> result bool) (key : A -> result K).
Variables (ltb : K -> K -> bool) (kf : A -> K).

(** The key function and the comparison of keys do not raise. *)
Hypothesis key_ok : forall x, key x = Ok (kf x).
Hypothesis lt_ok : forall x y, lt (kf x) (kf y) = Ok (ltb (kf x) (kf y)).

(** The comparison is a strict weak order. *)
Hypothesis ltb_asym : forall a b, ltb a b = true -> ltb b a = false.
Hypothesis ltb_negative_trans :
  forall a b c, ltb a b = false -> ltb b c = false -> ltb a c = false.

Let dec (x : A) : K * A := (kf x, x).

Lemma ltb_irrefl (a : K) : ltb a a = false.
Proof.
  destruct (ltb a a) eqn:E; [|reflexivity].
  now rewrite (@ltb_asym _ _ E) in E.
Qed.

Lemma decorate_value (l : list A) : PySort.decorate key l = Ok (map dec l).
Proof.
  induction l as [|x r IH]; [reflexivity|].
  simpl. now rewrite key_ok, IH.
Qed.

Lemma insert_value (x : A) (placed : list A) :
  PySort.insert lt (dec x) (map dec placed)
  = Ok (map dec (place ltb kf x placed)).
Proof.
  induction placed as [|y r IH]; [reflexivity|].
  cbn [map PySort.insert place].
  change (fst (dec x)) with (kf x). change (fst (dec y)) with (kf y).
  rewrite lt_ok. cbn [bind].
  destruct (ltb (kf x) (kf y)); [reflexivity|].
  now rewrite IH.
Qed.

Lemma insert_all_value (l placed : list A) :
  PySort.insert_all lt (map dec l) (map dec placed)
  = Ok (map dec (place_all ltb kf l placed)).
Proof.
  revert placed. induction l as [|x r IH]; intros placed; [reflexivity|].
  cbn [map PySort.insert_all place_all]. rewrite insert_value. cbn [bind].
  apply IH.
Qed.

(** [sorted] does not raise and is the insertion sort. *)
Lemma sorted_value (l : list A) :
  PySort.sorted lt key l = Ok (place_all ltb kf l []).
Proof.
  unfold PySort.sorted. rewrite decorate_value. cbn [bind].
  change (@nil (K * A)) with (map dec []).
  rewrite insert_all_value. cbn [bind].
  rewrite map_map. unfold dec. cbn [snd]. now rewrite map_id.
Qed.

Lemma place_perm (x : A) (placed : list A) :
  Permutation (x :: placed) (place ltb kf x placed).
Proof.
  induction placed as [|y r IH]; [reflexivity|].
  simpl. destruct (ltb (kf x) (kf y)); [reflexivity|].
  rewrite perm_swap. now constructor.
Qed.

Lemma place_all_perm (l placed : list A) :
  Permutation (l ++ placed) (place_all ltb kf l placed).
Proof.
  revert placed. induction l as [|x r IH]; intros placed; [reflexivity|].
  cbn [place_all]. rewrite <- IH, <- place_perm.
  simpl. apply Permutation_middle.
Qed.

Lemma place_sorted (x : A) (placed : list A) :
  StronglySorted (not_after ltb kf) placed ->
  StronglySorted (not_after ltb kf) (place ltb kf x placed).
Proof.
  induction placed as [|y r IH]; intros S.
  - repeat constructor.
  - apply StronglySorted_inv in S as [Sr Fy]. cbn [place].
    destruct (ltb (kf x) (kf y)) eqn:XY.
    + constructor; [now constructor|].
      constructor; [exact (@ltb_asym _ _ XY)|].
      apply Forall_forall. intros z Hz.
      rewrite Forall_forall in Fy. specialize (Fy z Hz).
      unfold not_after in *.
      exact (@ltb_negative_trans _ _ _ Fy (@ltb_asym _ _ XY)).
    + constructor; [now apply IH|].
      apply (Permutation_Forall (place_perm x r)).
      constructor; assumption.
Qed.

Lemma place_all_sorted (l placed : list A) :
  StronglySorted (not_after ltb kf) placed ->
  StronglySorted (not_after ltb kf) (place_all ltb kf l placed).
Proof.
  revert placed. induction l as [|x r IH]; intros placed S; [assumption|].
  apply IH. now apply place_sorted.
Qed.

(** A new item goes behind the items already placed that it is tied
    with. *)
Lemma place_tied (k : K) (x : A) (placed : list A) :
  StronglySorted (not_after ltb kf) placed ->
  filter (tied ltb kf k) (place ltb kf x placed)
  = filter (tied ltb kf k) placed ++ filter (tied ltb kf k) [x].
Proof.
  induction placed as [|y r IH]; intros S.
  - reflexivity.
  - apply StronglySorted_inv in S as [Sr Fy]. cbn [place].
    destruct (ltb (kf x) (kf y)) eqn:XY.
    + cbn [filter]. destruct (tied ltb kf k x) eqn:Tx;
        [|now rewrite app_nil_r].
      assert (N : forall z, In z (y :: r) -> tied ltb kf k z = false).
      { intros z Hz.
        assert (ZY : ltb (kf z) (kf y) = false).
        { destruct Hz as [<-|Hz]; [apply ltb_irrefl|].
          rewrite Forall_forall in Fy. exact (Fy z Hz). }
        unfold tied in *. apply andb_true_iff in Tx as [XK KX].
        apply negb_true_iff in XK, KX.
        destruct (ltb k (kf z)) eqn:KZ; [now rewrite andb_false_r|].
        pose proof (@ltb_negative_trans _ _ _ XK KZ) as XZ.
        pose proof (@ltb_negative_trans _ _ _ XZ ZY). congruence. }
      assert (E : filter (tied ltb kf k) (y :: r) = []).
      { clear -N. induction (y :: r) as [|z l IHl]; [reflexivity|].
        simpl. rewrite (N z (or_introl eq_refl)).
        apply IHl. intros w Hw. apply N. now right. }
      change (filter (tied ltb kf k) (y :: r)) with
        (if tied ltb kf k y then y :: filter (tied ltb kf k) r
         else filter (tied ltb kf k) r) in E.
      now rewrite E.
    + cbn [filter]. rewrite (IH Sr).
      now destruct (tied ltb kf k y).
Qed.

Lemma place_all_tied (k : K) (l placed : list A) :
  StronglySorted (not_after ltb kf) placed ->
  filter (tied ltb kf k) (place_all ltb kf l placed)
  = filter (tied ltb kf k) placed ++ filter (tied ltb kf k) l.
Proof.
  revert placed. induction l as [|x r IH]; intros placed S.
  - simpl. now rewrite app_nil_r.
  - cbn [place_all]. rewrite (IH _ (place_sorted x S)), (place_tied k x S).
    rewrite <- app_assoc. cbn [filter].
    now destruct (tied ltb kf k x).
Qed.

(** [sorted] returns the stable sort of its input. *)
Lemma sorted_stable_sort (l : list A) :
  exists l',
    PySort.sorted lt key l = Ok l'
    /\ Permutation l l'
    /\ StronglySorted (not_after ltb kf) l'
    /\ forall k, filter (tied ltb kf k) l' = filter (tied ltb kf k) l.
Proof.
  exists (place_all ltb kf l []). split; [apply sorted_value|].
  split; [|split].
  - rewrite <- place_all_perm. now rewrite app_nil_r.
  - apply place_all_sorted. constructor.
  - intros k. apply (place_all_tied k l). constructor.
Qed.

End SortedFacts.

(** What [sorted] returns when the keys of the items of the list can be
    computed and compared; nothing is asked of other items. *)
Section SortedOn.

Variables (A K : Type).
Variables (lt : K -> K -> result bool) (key : A -> result K).
Variables (ltb : K -> K -> bool) (kf : A -> K).

Let dec (x : A) : K * A := (kf x, x).

Lemma decorate_value_on (l : list A) :
  (forall x, In x l -> key x = Ok (kf x)) ->
  PySort.decorate key l = Ok (map dec l).
Proof.
  induction l as [|x r IH]; intros H; [reflexivity|].
  cbn [PySort.decorate map]. rewrite (H x (or_introl eq_refl)). cbn [bind].
  rewrite IH; [reflexivity|]. intros y Hy. apply H. now right.
Qed.

Lemma insert_value_on (x : A) (placed : list A) :
  (forall y, In y placed -> lt (kf x) (kf y) = Ok (ltb (kf x) (kf y))) ->
  PySort.insert lt (dec x) (map dec placed)
  = Ok (map dec (place ltb kf x placed)).
Proof.
  induction placed as [|y r IH]; intros H; [reflexivity|].
  cbn [map PySort.insert place].
  change (fst (dec x)) with (kf x). change (fst (dec y)) with (kf y).
  rewrite (H y (or_introl eq_refl)). cbn [bind].
  destruct (ltb (kf x) (kf y)); [reflexivity|].
  rewrite IH; [reflexivity|]. intros z Hz. apply H. now right.
Qed.

Lemma insert_all_value_on (l placed : list A) :
  (forall x y, In x (l ++ placed) -> In y (l ++ placed) ->
               lt (kf x) (kf y) = Ok (ltb (kf x) (kf y))) ->
  PySort.insert_all lt (map dec l) (map dec placed)
  = Ok (map dec (place_all ltb kf l placed)).
Proof.
  revert placed. induction l as [|x r IH]; intros placed H; [reflexivity|].
  cbn [map PySort.insert_all place_all]. rewrite insert_value_on.
  - cbn [bind]. apply IH. intros a b Ha Hb.
    assert (M : forall z, In z (r ++ place ltb kf x placed) ->
                          In z ((x :: r) ++ placed)).
    { intros z Hz. apply in_app_or in Hz as [Hz|Hz].
      - right. apply in_or_app. now left.
      - apply (Permutation_in z (Permutation_sym (place_perm ltb kf x placed)))
          in Hz.
        destruct Hz as [<-|Hz]; [now left|]. right. apply in_or_app. now right. }
    apply H; now apply M.
  - intros y Hy. apply H; [now left|]. right. apply in_or_app. now right.
Qed.

Lemma sorted_value_on (l : list A) :
  (forall x, In x l -> key x = Ok (kf x)) ->
  (forall x y, In x l -> In y l ->
               lt (kf x) (kf y) = Ok (ltb (kf x) (kf y))) ->
  PySort.sorted lt key l = Ok (place_all ltb kf l []).
Proof.
  intros Hk Hl. unfold PySort.sorted. rewrite (decorate_value_on l Hk).
  cbn [bind]. change (@nil (K * A)) with (map dec []).
  rewrite insert_all_value_on by (rewrite app_nil_r; exact Hl).
  cbn [bind]. rewrite map_map. unfold dec. cbn [snd]. now rewrite map_id.
Qed.

End SortedOn.

(** ** Natural sort *)

Section NaturalSortFacts.

Variable norm_fold : string -> string.



Lemma natural_key_lt (s t : string) :
  PyCmp.list_lt (natural_key norm_fold s) (natural_key norm_fold t)
  = Ok (key_ltb (natural_key norm_fold s) (natural_key norm_fold t)).
Proof.
  apply (list_lt_key_ltb _ _ false); apply natural_key_alternates.
Qed.

(** On strings whose runs of digits are within the limit, [natural_sort]
    does not raise and is the insertion sort by [natural_key]. *)
Lemma natural_sort_value (l : list string) :
  Forall (fun s => short_runs s = true) l ->
  natural_sort norm_fold l
  = Ok (place_all key_ltb (natural_key norm_fold) l []).
Proof.
  intros F. rewrite Forall_forall in F.
  unfold natural_sort. apply sorted_value_on.
  - intros x Hx. apply natural_keys_value. now apply F.
  - intros x y _ _. apply natural_key_lt.
Qed.



Lemma StronglySorted_weaken (A : Type) (R R' : A -> A -> Prop) (l : list A) :
  (forall a b, R a b -> R' a b) -> StronglySorted R l -> StronglySorted R' l.
Proof.
  intros W S. induction S as [|a l S IH F]; constructor; [assumption|].
  apply (Forall_impl _ (W a) F).
Qed.



End NaturalSortFacts.

Section BuiltKeys.

Variable norm_fold : string -> string.





End BuiltKeys.





(** * Further properties *)

(** ** Quote handling *)

(** X1: [quote_string_if_needed] never raises, what it returns is quoted
    or holds no space, and quoting a second time changes nothing. *)
Theorem quote_string_if_needed_idempotent (s : string) :
  exists out,
    quote_string_if_needed s = Ok out
    /\ (is_quoted out = Ok true \/ contains " " out = false)
    /\ quote_string_if_needed out = Ok out.
Proof.
  unfold quote_string_if_needed.
  destruct (is_quoted_total s) as [Q|Q].
  - exists s. rewrite Q. cbn [bind orb]. auto.
  - destruct (contains " " s) eqn:C.
    + set (quote := if contains dquote s then squote else dquote).
      assert (In quote QUOTES)
        by (unfold quote; destruct (contains dquote s); simpl; auto).
      exists (String quote (s ++ String quote "")).
      rewrite Q. cbn [bind orb negb]. fold quote.
      rewrite (is_quoted_wrapped s H). cbn [bind orb]. auto.
    + exists s. rewrite Q. cbn [bind orb]. rewrite C. auto.
Qed.

(** X2: [strip_quotes (quote_string_if_needed s)] gives [s] back exactly
    when [s] is not quoted; a quoted [s] loses its outer quotes: it is a
    quote character, a body and the same quote character, and the body is
    what comes back. *)
Theorem strip_quotes_inverts_quoting (s : string) :
  ((q <- quote_string_if_needed s ;; strip_quotes q) = Ok s
   <-> is_quoted s = Ok false)
  /\ (is_quoted s = Ok true ->
      exists c body,
        In c QUOTES /\ s = String c (body ++ String c "")
        /\ (q <- quote_string_if_needed s ;; strip_quotes q) = Ok body).
Proof.
  assert (Quoted : is_quoted s = Ok true ->
            exists c body,
              In c QUOTES /\ s = String c (body ++ String c "")
              /\ (q <- quote_string_if_needed s ;; strip_quotes q) = Ok body).
  { intros Q. destruct (is_quoted_shape s Q) as [c [body [I E]]].
    exists c, body. split; [exact I|]. split; [exact E|].
    unfold quote_string_if_needed. rewrite Q. cbn [bind orb].
    rewrite E. now apply strip_quotes_wrapped. }
  split; [|exact Quoted]. split.
  - destruct (is_quoted_total s) as [Q|Q]; [|trivial].
    destruct (Quoted Q) as [c [body [_ [E ->]]]].
    intros [= B]. exfalso. apply (f_equal String.length) in B.
    rewrite E in B. simpl in B. rewrite length_append in B. simpl in B. lia.
  - intros Q. unfold quote_string_if_needed. rewrite Q. cbn [bind orb].
    destruct (contains " " s); cbn [negb bind].
    + apply strip_quotes_wrapped.
      destruct (contains dquote s); simpl; auto.
    + unfold strip_quotes. now rewrite Q.
Qed.

(** ** Type coercion *)

Lemma cast_bool_empty (b : bool) :
  cast (VBool b) "" = {| printed := []; ended := Raise IndexError |}.
Proof. reflexivity. Qed.

(** [str] of an integer, by the size of the integer. *)
Lemma str_of_int_value (z : Z) :
  PyStr.str_of_int z
  = if short_int z then Ok (PyStr.decimal_text z) else Raise ValueError.
Proof.
  unfold PyStr.str_of_int, short_int.
  destruct (PyStr.digits_of_int z <=? PyStr.int_max_str_digits)%nat eqn:L.
  - apply Nat.leb_le in L. now rewrite (proj2 (Nat.ltb_ge _ _) L).
  - apply Nat.leb_gt in L. now rewrite (proj2 (Nat.ltb_lt _ _) L).
Qed.

(** [cast] on an integer [current]: when [int] refuses [new], writing the
    diagnostic raises for a [current] of too many digits. *)
Lemma cast_int_value (z : Z) (new : string) :
  cast (VInt z) new
  = match PyStr.int new with
    | Ok n => returned (VInt n)
    | Raise _ =>
        if short_int z then gave_up (VInt z) new
        else {| printed := []; ended := Raise ValueError |}
    end.
Proof.
  unfold cast, construct, problem_message, str_of_value.
  destruct (PyStr.int new) as [n|e] eqn:I; [reflexivity|].
  apply int_raises_value_error in I. subst e.
  cbn [bind try_except_pass existsb exn_eqb orb falls_through].
  rewrite str_of_int_value. now destruct (short_int z).
Qed.

Lemma bool_vocabulary_ended (b : bool) (new : string) :
  exists b', ended (bool_vocabulary b new) = Ok (VBool b').
Proof.
  unfold bool_vocabulary. destruct (PyStr.int new); [now eexists|].
  repeat match goal with
         | |- context [if ?c then _ else _] => destruct c
         end; now eexists.
Qed.

(** X3: whenever [cast] returns, the value is of the type of [current]. *)
Theorem cast_keeps_type (current : value) (new : string) (v : value) :
  ended (cast current new) = Ok v -> same_value_type current v = true.
Proof.
  destruct current as [b|z|s].
  - destruct new as [|c r]; [discriminate|].
    rewrite cast_bool_nonempty by discriminate.
    destruct (bool_vocabulary_ended b (String c r)) as [b' ->].
    now intros [= <-].
  - rewrite cast_int_value. destruct (PyStr.int new); [now intros [= <-]|].
    destruct (short_int z); [now intros [= <-] | discriminate].
  - now intros [= <-].
Qed.

Lemma cast_keeps_type_witness :
  same_value_type (VInt 5) (VInt 42) = true.
Proof.
  exact (@cast_keeps_type (VInt 5) " 42" (VInt 42) eq_refl).
Defined.

(** X4: [cast] raises in two cases only: a boolean [current] with the
    empty string, where [new[0]] raises an [IndexError]; and an integer
    [current] of more than [int_max_str_digits] digits with a [new] that
    [int] refuses, where writing the diagnostic raises a [ValueError]. *)
Theorem cast_raises_iff (current : value) (new : string) (e : exn) :
  ended (cast current new) = Raise e
  <-> ((exists b, current = VBool b) /\ new = "" /\ e = IndexError)
      \/ (exists z, current = VInt z /\ short_int z = false
                    /\ PyStr.int new = Raise ValueError /\ e = ValueError).
Proof.
  split.
  - destruct current as [b|z|s].
    + destruct new as [|c r].
      * intros [= <-]. left. eauto.
      * rewrite cast_bool_nonempty by discriminate.
        destruct (bool_vocabulary_ended b (String c r)) as [b' ->].
        discriminate.
    + rewrite cast_int_value.
      destruct (PyStr.int new) as [n|e0] eqn:I; [discriminate|].
      apply int_raises_value_error in I. subst e0.
      destruct (short_int z) eqn:S; [discriminate|].
      intros [= <-]. right. exists z. auto.
    + discriminate.
  - intros [[[b ->] [-> ->]] | [z [-> [S [I ->]]]]]; [reflexivity|].
    rewrite cast_int_value, I, S. reflexivity.
Qed.

(** X5: for an integer [current] of at most [int_max_str_digits] digits,
    [cast] gives up on a [new] without any digit, the empty string among
    them, and on a run of more than [int_max_str_digits] digits: it prints
    the diagnostic and returns [current].  On a run of digits within the
    limit it returns the number the run denotes, whatever [current] is.  For
    a string [current] it returns [new] as it is, empty or not, and prints
    nothing. *)
Theorem cast_int_and_str :
  (forall z new,
      short_int z = true ->
      none_of PyStr.is_digit new = true ->
      cast (VInt z) new = gave_up (VInt z) new)
  /\ (forall z new,
         short_int z = true ->
         all_of PyStr.is_digit new = true ->
         PyStr.int_max_str_digits < String.length new ->
         cast (VInt z) new = gave_up (VInt z) new)
  /\ (forall z new,
         all_of PyStr.is_digit new = true -> nonempty new = true ->
         String.length new <= PyStr.int_max_str_digits ->
         cast (VInt z) new = returned (VInt (decimal_value 0 new)))
  /\ (forall s new, cast (VStr s) new = returned (VStr new)).
Proof.
  split; [|split; [|split]].
  - intros z new S N. rewrite cast_int_value, (int_of_text new N).
    now rewrite S.
  - intros z new S D L. rewrite cast_int_value, (int_of_long_run new D L).
    now rewrite S.
  - intros z new D E L. rewrite cast_int_value.
    now rewrite (int_of_run new D E L).
  - reflexivity.
Qed.

Lemma cast_int_and_str_witness :
  cast (VInt 7) "" = gave_up (VInt 7) ""
  /\ cast (VInt 7) "0042" = returned (VInt 42).
Proof.
  split.
  - exact (proj1 cast_int_and_str 7%Z "" eq_refl eq_refl).
  - apply (proj1 (proj2 (proj2 cast_int_and_str)) 7%Z "0042" eq_refl eq_refl).
    apply Nat.leb_le. reflexivity.
Defined.

Lemma strip_quotes_inverts_quoting_witness :
  (q <- quote_string_if_needed "a b" ;; strip_quotes q) = Ok "a b".
Proof.
  exact (proj2 (proj1 (strip_quotes_inverts_quoting "a b")) eq_refl).
Defined.

Lemma cast_raises_iff_witness :
  ended (cast (VBool false) "") = Raise IndexError.
Proof.
  exact (proj2 (cast_raises_iff (VBool false) "" IndexError)
               (or_introl
                  (conj (ex_intro _ false eq_refl) (conj eq_refl eq_refl)))).
Defined.

Section CaseInsensitive.

Import PyStr.

(** Lowering a character keeps what [int] looks at. *)
Lemma lower_char_classes (c : ascii) :
  is_space (lower_char c) = is_space c
  /\ is_digit (lower_char c) = is_digit c
  /\ Ascii.eqb (lower_char c) "+" = Ascii.eqb c "+"
  /\ Ascii.eqb (lower_char c) "-" = Ascii.eqb c "-"
  /\ Ascii.eqb (lower_char c) "_" = Ascii.eqb c "_"
  /\ digit_value (lower_char c) = (if is_digit c then digit_value c
                                   else digit_value (lower_char c))
  /\ lower_char (lower_char c) = lower_char c.
Proof.
  destruct c as [[] [] [] [] [] [] [] []]; vm_compute; repeat split.
Qed.

Lemma lower_lower (s : string) : lower (lower s) = lower s.
Proof.
  induction s as [|c r IH]; [reflexivity|].
  simpl. rewrite IH. f_equal. apply lower_char_classes.
Qed.

Lemma lstrip_lower (s : string) : lstrip (lower s) = lower (lstrip s).
Proof.
  induction s as [|c r IH]; [reflexivity|].
  simpl. rewrite (proj1 (lower_char_classes c)).
  now destruct (is_space c).
Qed.

Lemma rstrip_lower (s : string) : rstrip (lower s) = lower (rstrip s).
Proof.
  induction s as [|c r IH]; [reflexivity|].
  simpl. rewrite IH, (proj1 (lower_char_classes c)).
  destruct (rstrip r); simpl; [now destruct (is_space c) | reflexivity].
Qed.

Lemma digits_lower (s : string) (acc : Z) (after_digit : bool) :
  digits (lower s) acc after_digit = digits s acc after_digit.
Proof.
  revert acc after_digit. induction s as [|c r IH]; intros acc b;
    [reflexivity|].
  destruct (lower_char_classes c) as [_ [D [_ [_ [U [V _]]]]]].
  simpl. rewrite D, U, !IH. destruct (is_digit c); [|reflexivity].
  now rewrite V.
Qed.

Lemma count_digits_lower (s : string) :
  count_digits (lower s) = count_digits s.
Proof.
  induction s as [|c r IH]; [reflexivity|].
  cbn [lower count_digits].
  now rewrite IH, (proj1 (proj2 (lower_char_classes c))).
Qed.

(** [int] reads a string and the string in lower case alike. *)
Lemma int_lower (s : string) : int (lower s) = int s.
Proof.
  unfold int, strip. rewrite lstrip_lower, rstrip_lower.
  destruct (rstrip (lstrip s)) as [|c r]; [reflexivity|].
  destruct (lower_char_classes c) as [_ [_ [P [M _]]]].
  cbn [lower]. rewrite P, M.
  destruct (Ascii.eqb c "+");
    [now rewrite count_digits_lower, digits_lower|].
  destruct (Ascii.eqb c "-");
    [now rewrite count_digits_lower, digits_lower|].
  change (String (lower_char c) (lower r)) with (lower (String c r)).
  now rewrite count_digits_lower, digits_lower.
Qed.

Lemma cast_bool_lower (b : bool) (new : string) :
  ended (cast (VBool b) (lower new)) = ended (cast (VBool b) new).
Proof.
  destruct new as [|c r]; [reflexivity|].
  rewrite !cast_bool_nonempty by discriminate.
  unfold bool_vocabulary. rewrite int_lower, lower_lower.
  destruct (int (String c r)); [reflexivity|].
  repeat match goal with
         | |- context [if ?c then _ else _] => destruct c
         end; reflexivity.
Qed.

End CaseInsensitive.

(** X6: for a boolean [current], [cast] does not look at the case of
    [new]: two strings that are equal in lower case end the call the same
    way. *)
Theorem cast_bool_ignores_case (b : bool) (new new' : string) :
  PyStr.lower new = PyStr.lower new' ->
  ended (cast (VBool b) new) = ended (cast (VBool b) new').
Proof.
  intros E. rewrite <- (cast_bool_lower b new), <- (cast_bool_lower b new').
  now rewrite E.
Qed.

Lemma cast_bool_ignores_case_witness :
  ended (cast (VBool true) "OFF") = ended (cast (VBool true) "off").
Proof.
  exact (@cast_bool_ignores_case true "OFF" "off" eq_refl).
Defined.

(** ** De-duplication *)

Section RemoveDuplicatesMore.

Variables (A : Type) (eqb : A -> A -> bool).
Hypothesis eqb_spec : forall x y, eqb x y = true <-> x = y.

Let mem (x : A) (l : list A) : bool := existsb (eqb x) l.
Let add (ks : list A) (x : A) : list A := if mem x ks then ks else ks ++ [x].

Lemma remove_duplicates_fold (l : list A) :
  remove_duplicates eqb l = fold_left add l [].
Proof.
  unfold remove_duplicates. exact (keys_fold eqb l (OrderedDict.empty A unit)).
Qed.

Lemma mem_false (x : A) (l : list A) : mem x l = false <-> ~ In x l.
Proof.
  rewrite <- (mem_In eqb eqb_spec x l). fold (mem x l).
  destruct (mem x l); split; congruence.
Qed.

(** Items that are new and distinct are appended in their order. *)
Lemma fold_add_fresh (l ks : list A) :
  NoDup l -> (forall x, In x l -> ~ In x ks) ->
  fold_left add l ks = ks ++ l.
Proof.
  revert ks. induction l as [|x r IH]; intros ks N F.
  - simpl. now rewrite app_nil_r.
  - apply NoDup_cons_iff in N as [Nx Nr]. cbn [fold_left]. unfold add at 2.
    rewrite (proj2 (mem_false x ks) (F x (or_introl eq_refl))).
    rewrite (IH (ks ++ [x]) Nr).
    + now rewrite <- app_assoc.
    + intros y Hy Hin. apply in_app_or in Hin as [Hin|[<-|[]]].
      * exact (F y (or_intror Hy) Hin).
      * contradiction.
Qed.

Lemma remove_duplicates_NoDup_id (l : list A) :
  NoDup l -> remove_duplicates eqb l = l.
Proof.
  intros N. rewrite remove_duplicates_fold.
  now rewrite (@fold_add_fresh l [] N) by (intros x _ []).
Qed.

Lemma mem_filter (p : A -> bool) (x : A) (l : list A) :
  mem x (filter p l) = mem x l && p x.
Proof.
  destruct (mem x l) eqn:M, (p x) eqn:P; simpl.
  - apply (mem_In eqb eqb_spec). apply filter_In.
    split; [now apply (mem_In eqb eqb_spec) | assumption].
  - apply mem_false. intros H. apply filter_In in H as [_ H]. congruence.
  - apply mem_false. intros H. apply filter_In in H as [H _].
    now apply mem_false in M.
  - apply mem_false. intros H. apply filter_In in H as [H _].
    now apply mem_false in M.
Qed.

(** Reading [l] after the keys [ks] adds the keys of [l] that are not in
    [ks]. *)
Lemma fold_add_from (l ks : list A) :
  fold_left add l ks
  = ks ++ filter (fun x => negb (mem x ks)) (fold_left add l []).
Proof.
  induction l as [|x r IH] using rev_ind; [simpl; now rewrite app_nil_r|].
  rewrite !fold_left_app. cbn [fold_left]. rewrite IH.
  set (G := fold_left add r []).
  set (nk := fun x => negb (mem x ks)).
  unfold add. unfold mem at 1. rewrite existsb_app.
  fold (mem x ks) (mem x (filter nk G)). rewrite mem_filter.
  destruct (mem x ks) eqn:K.
  - cbn [orb]. destruct (mem x G); [reflexivity|].
    rewrite filter_app. cbn [filter]. unfold nk at 3. rewrite K.
    cbn [negb]. now rewrite app_nil_r.
  - unfold nk at 1. rewrite K. cbn [orb negb]. rewrite andb_true_r.
    destruct (mem x G); [reflexivity|].
    rewrite filter_app. cbn [filter]. unfold nk at 3. rewrite K.
    cbn [negb]. now rewrite app_assoc.
Qed.

Lemma remove_duplicates_app (l1 l2 : list A) :
  remove_duplicates eqb (l1 ++ l2)
  = remove_duplicates eqb l1
    ++ filter (fun x => negb (mem x l1)) (remove_duplicates eqb l2).
Proof.
  rewrite !remove_duplicates_fold, fold_left_app, fold_add_from.
  f_equal. apply filter_ext. intros x. f_equal.
  rewrite <- remove_duplicates_fold.
  destruct (mem x l1) eqn:M.
  - apply (mem_In eqb eqb_spec). apply (remove_duplicates_In eqb eqb_spec).
    exact (proj1 (mem_In eqb eqb_spec x l1) M).
  - apply mem_false. intros H.
    apply (proj1 (remove_duplicates_In eqb eqb_spec l1 x)) in H.
    exact (proj1 (mem_false x l1) M H).
Qed.

End RemoveDuplicatesMore.

(** X7: [remove_duplicates] returns its input as it is exactly when the
    input has no duplicates; pruning a pruned list changes nothing. *)
Theorem remove_duplicates_idempotent
  (A : Type) (eqb : A -> A -> bool) (l : list A) :
  (forall x y, eqb x y = true <-> x = y) ->
  (remove_duplicates eqb l = l <-> NoDup l)
  /\ remove_duplicates eqb (remove_duplicates eqb l) = remove_duplicates eqb l.
Proof.
  intros H. split; [split|].
  - intros E. rewrite <- E. now apply remove_duplicates_NoDup.
  - now apply remove_duplicates_NoDup_id.
  - apply remove_duplicates_NoDup_id; [assumption|].
    now apply remove_duplicates_NoDup.
Qed.

Lemma remove_duplicates_idempotent_witness :
  remove_duplicates Z.eqb (remove_duplicates Z.eqb [4; 4; 1; 4]%Z)
  = remove_duplicates Z.eqb [4; 4; 1; 4]%Z.
Proof.
  exact (proj2 (@remove_duplicates_idempotent Z Z.eqb [4; 4; 1; 4]%Z Z.eqb_eq)).
Defined.

(** X8: pruning two lists put end to end gives the first list pruned,
    followed by the second list pruned without the values of the first. *)
Theorem remove_duplicates_append
  (A : Type) (eqb : A -> A -> bool) (l1 l2 : list A) :
  (forall x y, eqb x y = true <-> x = y) ->
  remove_duplicates eqb (l1 ++ l2)
  = remove_duplicates eqb l1
    ++ filter (fun x => negb (existsb (eqb x) l1)) (remove_duplicates eqb l2).
Proof.
  intros H. now apply remove_duplicates_app.
Qed.

Lemma remove_duplicates_append_witness :
  remove_duplicates Z.eqb ([1; 2; 1] ++ [3; 2; 3])%Z = [1; 2; 3]%Z.
Proof.
  rewrite (@remove_duplicates_append Z Z.eqb [1; 2; 1]%Z [3; 2; 3]%Z Z.eqb_eq).
  reflexivity.
Defined.

(** ** Sorting *)

Section PlaceFacts.

Variables (A K : Type) (ltb : K -> K -> bool) (kf : A -> K).

Lemma place_In (x z : A) (placed : list A) :
  In z (place ltb kf x placed) <-> z = x \/ In z placed.
Proof.
  split.
  - intros H. apply (Permutation_in z (Permutation_sym (place_perm ltb kf x placed))) in H.
    destruct H as [<-|H]; auto.
  - intros H. apply (Permutation_in z (place_perm ltb kf x placed)).
    destruct H as [->|H]; [now left | now right].
Qed.

(** An item that is below none of the items placed goes last. *)
Lemma place_last (x : A) (placed : list A) :
  (forall y, In y placed -> ltb (kf x) (kf y) = false) ->
  place ltb kf x placed = placed ++ [x].
Proof.
  induction placed as [|y r IH]; intros H; [reflexivity|].
  cbn [place]. rewrite (H y (or_introl eq_refl)).
  rewrite IH; [reflexivity|]. intros z Hz. apply H. now right.
Qed.

Lemma StronglySorted_across (R : A -> A -> Prop) (l1 l2 : list A) :
  StronglySorted R (l1 ++ l2) ->
  forall a b, In a l1 -> In b l2 -> R a b.
Proof.
  induction l1 as [|x l1 IH]; intros S a b Ha Hb; [destruct Ha|].
  apply StronglySorted_inv in S as [S F]. destruct Ha as [<-|Ha].
  - rewrite Forall_forall in F. apply F. apply in_or_app. now right.
  - now apply IH.
Qed.

(** Sorting a sorted list returns it. *)
Lemma place_all_sorted_id (l placed : list A) :
  StronglySorted (not_after ltb kf) (placed ++ l) ->
  place_all ltb kf l placed = placed ++ l.
Proof.
  revert placed. induction l as [|x r IH]; intros placed S.
  - simpl. now rewrite app_nil_r.
  - cbn [place_all]. rewrite place_last.
    + rewrite IH; rewrite <- app_assoc; [reflexivity | exact S].
    + intros y Hy.
      exact (StronglySorted_across _ _ S y x Hy (or_introl eq_refl)).
Qed.

Variables (K' : Type) (ltb' : K' -> K' -> bool) (kf' : A -> K').

Lemma place_agree (x : A) (placed : list A) :
  (forall y, In y placed -> ltb (kf x) (kf y) = ltb' (kf' x) (kf' y)) ->
  place ltb kf x placed = place ltb' kf' x placed.
Proof.
  induction placed as [|y r IH]; intros H; [reflexivity|].
  cbn [place]. rewrite (H y (or_introl eq_refl)).
  rewrite IH; [reflexivity|]. intros z Hz. apply H. now right.
Qed.

(** Two orders that agree on the keys of the items sort them alike. *)
Lemma place_all_agree (l placed : list A) :
  (forall x y, In x (l ++ placed) -> In y (l ++ placed) ->
               ltb (kf x) (kf y) = ltb' (kf' x) (kf' y)) ->
  place_all ltb kf l placed = place_all ltb' kf' l placed.
Proof.
  revert placed. induction l as [|x r IH]; intros placed H; [reflexivity|].
  cbn [place_all].
  transitivity (place_all ltb' kf' r (place ltb kf x placed));
    [|f_equal; apply place_agree].
  - apply IH. intros a b Ha Hb. apply H.
    + apply in_app_or in Ha as [Ha|Ha].
      * right. apply in_or_app. now left.
      * apply place_In in Ha as [->|Ha]; [now left|].
        right. apply in_or_app. now right.
    + apply in_app_or in Hb as [Hb|Hb].
      * right. apply in_or_app. now left.
      * apply place_In in Hb as [->|Hb]; [now left|].
        right. apply in_or_app. now right.
  - intros y Hy. apply H; [now left|]. right. apply in_or_app. now right.
Qed.

End PlaceFacts.

(** What a sort that returned has done, when [<] on keys can raise: the
    keys of the items it returned can be compared two by two. *)
Section ComparedKeys.

Lemma py_lt_ok (x y : key_part) (r : bool) :
  PyCmp.lt x y = Ok r ->
  r = match part_compare x y with Lt => true | _ => false end.
Proof.
  destruct x as [m|s], y as [n|t]; simpl; try discriminate;
    now intros [= <-].
Qed.

(** When [<] on two keys returns, it returns [key_ltb]. *)
Lemma list_lt_ok (a b : list key_part) (r : bool) :
  PyCmp.list_lt a b = Ok r -> r = key_ltb a b.
Proof.
  revert b. induction a as [|x a IH]; intros [|y b];
    try (now intros [= <-]).
  cbn [PyCmp.list_lt]. unfold key_ltb. cbn [key_compare].
  rewrite py_eq_compare.
  destruct (part_compare x y) eqn:C.
  - apply IH.
  - intros L. apply py_lt_ok in L. now rewrite C in L.
  - intros L. apply py_lt_ok in L. now rewrite C in L.
Qed.

Lemma comparable_list_lt (a b : list key_part) :
  comparable a b = true -> PyCmp.list_lt a b = Ok (key_ltb a b).
Proof.
  unfold comparable. destruct (PyCmp.list_lt a b) as [r|e] eqn:L;
    [|discriminate].
  intros _. now rewrite (list_lt_ok a b L).
Qed.

Lemma comparable_cons (x y : key_part) (a b : list key_part) :
  comparable (x :: a) (y :: b)
  = match part_compare x y with
    | Eq => comparable a b
    | _ => same_type x y
    end.
Proof.
  unfold comparable. cbn [PyCmp.list_lt]. rewrite py_eq_compare.
  destruct (part_compare x y) eqn:C; [reflexivity| |];
    destruct x, y; reflexivity.
Qed.

Lemma comparable_refl (a : list key_part) : comparable a a = true.
Proof.
  induction a as [|x a IH]; [reflexivity|].
  now rewrite comparable_cons, part_compare_refl.
Qed.

Lemma same_type_sym (x y : key_part) : same_type x y = same_type y x.
Proof. now destruct x, y. Qed.

Lemma same_type_trans (x y z : key_part) :
  same_type x y = true -> same_type y z = true -> same_type x z = true.
Proof. now destruct x, y, z. Qed.

Lemma comparable_sym (a b : list key_part) : comparable a b = comparable b a.
Proof.
  revert b. induction a as [|x a IH]; intros [|y b]; try reflexivity.
  rewrite !comparable_cons, (part_compare_antisym x y), (same_type_sym y x).
  destruct (part_compare x y); simpl; [apply IH | reflexivity | reflexivity].
Qed.

(** A key between two keys that it can be compared with makes them
    comparable. *)
Lemma comparable_between (a b c : list key_part) :
  key_compare a b <> Gt -> key_compare b c <> Gt ->
  comparable a b = true -> comparable b c = true -> comparable a c = true.
Proof.
  revert b c. induction a as [|x a IH]; intros [|y b] [|z c] AB BC;
    try reflexivity;
    try (exfalso; apply AB; reflexivity);
    try (exfalso; apply BC; reflexivity).
  rewrite !comparable_cons. cbn [key_compare] in AB, BC.
  destruct (part_compare x y) eqn:XY; [| |exfalso; now apply AB];
    (destruct (part_compare y z) eqn:YZ; [| |exfalso; now apply BC]).
  - apply part_compare_eq in XY, YZ. subst y z.
    rewrite part_compare_refl. now apply IH.
  - apply part_compare_eq in XY. subst y. now rewrite YZ.
  - apply part_compare_eq in YZ. subst z. now rewrite XY.
  - rewrite (part_compare_trans _ _ _ XY YZ). apply same_type_trans.
Qed.

Lemma key_ltb_compare (a b : list key_part) :
  key_ltb b a = false -> key_compare a b <> Gt.
Proof.
  unfold key_ltb. rewrite (key_compare_antisym a b).
  now destruct (key_compare a b).
Qed.

Variables (A : Type) (kf : A -> list key_part).

Let dec (x : A) : list key_part * A := (kf x, x).

Lemma insert_ok (x : A) (placed : list A) (res : list (list key_part * A)) :
  PySort.insert PyCmp.list_lt (dec x) (map dec placed) = Ok res ->
  res = map dec (place key_ltb kf x placed).
Proof.
  revert res. induction placed as [|y r IH]; intros res.
  - now intros [= <-].
  - cbn [map PySort.insert place].
    change (fst (dec x)) with (kf x). change (fst (dec y)) with (kf y).
    destruct (PyCmp.list_lt (kf x) (kf y)) as [b|e] eqn:L; [|discriminate].
    apply list_lt_ok in L. subst b. cbn [bind].
    destruct (key_ltb (kf x) (kf y)); [now intros [= <-]|].
    destruct (PySort.insert PyCmp.list_lt (dec x) (map dec r)) as [r'|e] eqn:I;
      [|discriminate].
    cbn [bind]. intros [= <-]. now rewrite (IH r' eq_refl).
Qed.

(** An item that found its place can be compared with every item placed:
    with those before its place it has been, and those behind lie above one
    that it has been compared with. *)
Lemma insert_comparable (x : A) (placed : list A)
  (res : list (list key_part * A)) :
  StronglySorted (not_after key_ltb kf) placed ->
  all_comparable kf placed ->
  PySort.insert PyCmp.list_lt (dec x) (map dec placed) = Ok res ->
  forall y, In y placed -> comparable (kf x) (kf y) = true.
Proof.
  revert res. induction placed as [|y0 r IH]; intros res S P I y Hy;
    [destruct Hy|].
  apply StronglySorted_inv in S as [Sr Fy].
  cbn [map PySort.insert] in I.
  change (fst (dec x)) with (kf x) in I.
  change (fst (dec y0)) with (kf y0) in I.
  destruct (PyCmp.list_lt (kf x) (kf y0)) as [b|e] eqn:L; [|discriminate].
  assert (C0 : comparable (kf x) (kf y0) = true)
    by (unfold comparable; now rewrite L).
  destruct Hy as [<-|Hy]; [exact C0|].
  apply list_lt_ok in L. subst b. cbn [bind] in I.
  destruct (key_ltb (kf x) (kf y0)) eqn:XY.
  - apply (comparable_between (kf x) (kf y0) (kf y)).
    + apply key_ltb_compare. now apply key_ltb_asym.
    + apply key_ltb_compare. rewrite Forall_forall in Fy. exact (Fy y Hy).
    + exact C0.
    + apply P; [now left | now right].
  - destruct (PySort.insert PyCmp.list_lt (dec x) (map dec r)) as [r'|e] eqn:I';
      [|discriminate].
    apply (IH r' Sr); [|reflexivity|exact Hy].
    intros a b Ha Hb. apply P; now right.
Qed.

Lemma insert_all_ok (l placed : list A) (res : list (list key_part * A)) :
  StronglySorted (not_after key_ltb kf) placed ->
  all_comparable kf placed ->
  PySort.insert_all PyCmp.list_lt (map dec l) (map dec placed) = Ok res ->
  res = map dec (place_all key_ltb kf l placed)
  /\ all_comparable kf (place_all key_ltb kf l placed).
Proof.
  revert placed res. induction l as [|x r IH]; intros placed res S P.
  - intros [= <-]. now split.
  - cbn [map PySort.insert_all place_all].
    destruct (PySort.insert PyCmp.list_lt (dec x) (map dec placed))
      as [p'|e] eqn:I; [|discriminate].
    cbn [bind]. rewrite (insert_ok x placed I).
    apply IH.
    + apply place_sorted;
        [exact key_ltb_asym | exact key_ltb_negative_trans | exact S].
    + pose proof (insert_comparable x S P I) as C.
      intros a b Ha Hb.
      apply place_In in Ha as [->|Ha]; apply place_In in Hb as [->|Hb].
      * apply comparable_refl.
      * now apply C.
      * rewrite comparable_sym. now apply C.
      * now apply P.
Qed.

Variable key : A -> result (list key_part).
Hypothesis key_ok : forall x, key x = Ok (kf x).

(** A sort that returned has returned the insertion sort by [key_ltb], and
    the keys of its items can be compared two by two. *)
Lemma sorted_ok (l l' : list A) :
  PySort.sorted PyCmp.list_lt key l = Ok l' ->
  l' = place_all key_ltb kf l [] /\ all_comparable kf l'.
Proof.
  unfold PySort.sorted.
  rewrite (@decorate_value_on _ _ key kf l (fun x _ => key_ok x)).
  cbn [bind]. change (fun x : A => (kf x, x)) with dec.
  change (@nil (list key_part * A)) with (map dec []).
  destruct (PySort.insert_all PyCmp.list_lt (map dec l) (map dec []))
    as [res|e] eqn:I; [|discriminate].
  cbn [bind]. intros [= <-].
  destruct (@insert_all_ok l [] res (SSorted_nil _)
              (fun a b H => match H with end) I) as [-> P].
  rewrite map_map. unfold dec. cbn [snd]. rewrite map_id. now split.
Qed.

(** Sorting again what a sort returned returns it. *)
Lemma sorted_again (l l' : list A) :
  PySort.sorted PyCmp.list_lt key l = Ok l' ->
  PySort.sorted PyCmp.list_lt key l' = Ok l'.
Proof.
  intros V. destruct (sorted_ok l V) as [E P].
  rewrite (@sorted_value_on _ _ PyCmp.list_lt key key_ltb kf l'
             (fun x _ => key_ok x)
             (fun x y Hx Hy => comparable_list_lt _ _ (P x y Hx Hy))).
  f_equal.
  apply (@place_all_sorted_id _ _ key_ltb kf l' []).
  cbn [app]. rewrite E.
  apply place_all_sorted;
    [exact key_ltb_asym | exact key_ltb_negative_trans | constructor].
Qed.

End ComparedKeys.

Section ShortRuns.

Import PyStr.

Lemma runs_within_text (t rest : string) :
  none_of is_digit t = true ->
  runs_within (t ++ rest) 0 = runs_within rest 0.
Proof.
  induction t as [|c t IH]; intros N; [reflexivity|].
  cbn [none_of] in N. apply andb_true_iff in N as [C N].
  apply negb_true_iff in C. cbn [append runs_within]. rewrite C.
  now apply IH.
Qed.

Lemma runs_within_digits (d : string) (k : nat) :
  all_of is_digit d = true ->
  k + String.length d <= int_max_str_digits ->
  runs_within d k = true.
Proof.
  revert k. induction d as [|c d IH]; intros k D L; [reflexivity|].
  cbn [all_of] in D. apply andb_true_iff in D as [C D].
  cbn [runs_within]. rewrite C. cbn [String.length] in L.
  apply andb_true_iff. split; [apply Nat.leb_le; lia|].
  apply IH; [exact D | lia].
Qed.

(** A string without digits has no run of digits to exceed the limit. *)
Lemma short_runs_text (t : string) :
  none_of is_digit t = true -> short_runs t = true.
Proof.
  intros N. unfold short_runs.
  rewrite <- (append_empty_r t), (runs_within_text t "" N). reflexivity.
Qed.

Lemma short_runs_text_run (t d : string) :
  none_of is_digit t = true -> all_of is_digit d = true ->
  String.length d <= int_max_str_digits ->
  short_runs (t ++ d) = true.
Proof.
  intros N D L. unfold short_runs. rewrite (runs_within_text t d N).
  now apply runs_within_digits.
Qed.

Variable norm_fold : string -> string.

(** [natural_sort] on strings whose keys can be compared two by two is the
    insertion sort by the keys built. *)
Lemma natural_sort_on_built (l : list string) :
  all_comparable (built_key norm_fold) l ->
  natural_sort norm_fold l
  = Ok (place_all key_ltb (built_key norm_fold) l []).
Proof.
  intros P. unfold natural_sort. apply sorted_value_on.
  - intros x _. apply natural_keys_built.
  - intros x y Hx Hy. apply comparable_list_lt. now apply P.
Qed.

End ShortRuns.

Section AlphabeticalSortFacts.

Variable norm_fold : string -> string.

Lemma string_ltb_asym (s t : string) :
  String.ltb s t = true -> String.ltb t s = false.
Proof.
  unfold String.ltb. rewrite (String.compare_antisym t s).
  now destruct (String.compare s t).
Qed.

Lemma string_ltb_negative_trans (s t u : string) :
  String.ltb s t = false -> String.ltb t u = false -> String.ltb s u = false.
Proof.
  unfold String.ltb. intros ST TU.
  destruct (String.compare s t) eqn:CST; try discriminate.
  - apply String.compare_eq_iff in CST. now subst t.
  - destruct (String.compare t u) eqn:CTU; try discriminate.
    + apply String.compare_eq_iff in CTU. subst u. now rewrite CST.
    + assert (TS : String.compare t s = Lt)
        by (rewrite String.compare_antisym, CST; reflexivity).
      assert (UT : String.compare u t = Lt)
        by (rewrite String.compare_antisym, CTU; reflexivity).
      pose proof (string_compare_trans _ _ _ UT TS) as US.
      rewrite String.compare_antisym, US. reflexivity.
Qed.

Lemma alphabetical_sort_value (l : list string) :
  alphabetical_sort norm_fold l = Ok (place_all String.ltb norm_fold l []).
Proof.
  unfold alphabetical_sort. now apply sorted_value.
Qed.

Lemma tied_string_eqb (k x : string) :
  tied String.ltb norm_fold k x = String.eqb (norm_fold x) k.
Proof.
  unfold tied, String.ltb.
  rewrite (String.compare_antisym (norm_fold x) k).
  destruct (String.eqb_spec (norm_fold x) k) as [->|NE].
  - now rewrite string_compare_refl.
  - destruct (String.compare k (norm_fold x)) eqn:C; try reflexivity.
    apply String.compare_eq_iff in C. congruence.
Qed.

Lemma not_after_string_compare (a b : string) :
  not_after String.ltb norm_fold a b ->
  String.compare (norm_fold a) (norm_fold b) <> Gt.
Proof.
  unfold not_after, String.ltb.
  rewrite (String.compare_antisym (norm_fold b) (norm_fold a)).
  now destruct (String.compare (norm_fold a) (norm_fold b)).
Qed.

Lemma alphabetical_sort_stable_sort (l : list string) :
  exists l',
    alphabetical_sort norm_fold l = Ok l'
    /\ Permutation l l'
    /\ StronglySorted
         (fun a b => String.compare (norm_fold a) (norm_fold b) <> Gt) l'
    /\ forall k,
        filter (fun x => String.eqb (norm_fold x) k) l'
        = filter (fun x => String.eqb (norm_fold x) k) l.
Proof.
  destruct (@sorted_stable_sort string string
              (fun s t => Ok (String.ltb s t)) (fun s => Ok (norm_fold s))
              String.ltb norm_fold (fun _ => eq_refl) (fun _ _ => eq_refl)
              string_ltb_asym string_ltb_negative_trans l)
    as [l' [V [P [S T]]]].
  exists l'. repeat split; try assumption.
  - exact (@StronglySorted_weaken _ _ _ l' not_after_string_compare S).
  - intros k.
    rewrite <- (filter_ext _ _ (tied_string_eqb k) l').
    rewrite <- (filter_ext _ _ (tied_string_eqb k) l).
    apply T.
Qed.

Lemma natural_sort_sorted (l : list string) :
  StronglySorted (not_after key_ltb (natural_key norm_fold))
                 (place_all key_ltb (natural_key norm_fold) l []).
Proof.
  apply place_all_sorted;
    [exact key_ltb_asym | exact key_ltb_negative_trans | constructor].
Qed.

Lemma alphabetical_sort_sorted (l : list string) :
  StronglySorted (not_after String.ltb norm_fold)
                 (place_all String.ltb norm_fold l []).
Proof.
  apply place_all_sorted;
    [exact string_ltb_asym | exact string_ltb_negative_trans | constructor].
Qed.

End AlphabeticalSortFacts.

(** X9: [alphabetical_sort] never raises and returns the stable sort of its
    input by the folded strings in code-point order: a permutation of the
    input in which no item has a folded string above that of a later item
    and items of one folded string keep their input order. *)
Theorem alphabetical_sort_spec (norm_fold : string -> string)
  (l : list string) :
  exists l',
    alphabetical_sort norm_fold l = Ok l'
    /\ Permutation l l'
    /\ StronglySorted
         (fun a b => String.compare (norm_fold a) (norm_fold b) <> Gt) l'
    /\ forall k,
        filter (fun x => String.eqb (norm_fold x) k) l'
        = filter (fun x => String.eqb (norm_fold x) k) l.
Proof.
  apply alphabetical_sort_stable_sort.
Qed.

(** X10: sorting what a sort returned returns it again, for
    [natural_sort] and for [alphabetical_sort]. *)
Theorem sorts_idempotent (norm_fold : string -> string) (l l' : list string) :
  (natural_sort norm_fold l = Ok l' -> natural_sort norm_fold l' = Ok l')
  /\ (alphabetical_sort norm_fold l = Ok l' ->
      alphabetical_sort norm_fold l' = Ok l').
Proof.
  split.
  - apply (@sorted_again _ (built_key norm_fold) (natural_keys norm_fold)
             (natural_keys_built norm_fold)).
  - rewrite !alphabetical_sort_value. intros [= <-]. f_equal.
    apply (@place_all_sorted_id _ _ String.ltb norm_fold _ []).
    apply alphabetical_sort_sorted.
Qed.

Lemma sorts_idempotent_witness :
  natural_sort ascii_norm_fold ["a2"; "b9"; "B10"] = Ok ["a2"; "b9"; "B10"]
  /\ alphabetical_sort ascii_norm_fold ["a2"; "B10"; "b9"]
     = Ok ["a2"; "B10"; "b9"].
Proof.
  split.
  - exact (proj1 (sorts_idempotent ascii_norm_fold ["B10"; "b9"; "a2"]
                                   ["a2"; "b9"; "B10"]) eq_refl).
  - exact (proj2 (sorts_idempotent ascii_norm_fold ["b9"; "B10"; "a2"]
                                   ["a2"; "B10"; "b9"]) eq_refl).
Defined.

(** ** Natural keys of simple strings *)

Section SimpleKeys.

Import PyStr.

Lemma split_runs_text (t rest piece : string) :
  none_of is_digit t = true ->
  PyRe.split_runs (t ++ rest) piece false
  = PyRe.split_runs rest (piece ++ t) false.
Proof.
  revert piece. induction t as [|c t IH]; intros piece N.
  - simpl. now rewrite append_empty_r.
  - cbn [none_of] in N. apply andb_true_iff in N as [C N].
    apply negb_true_iff in C. cbn [append PyRe.split_runs]. rewrite C.
    cbn [Bool.eqb]. rewrite (IH _ N). now rewrite append_snoc.
Qed.

Lemma split_runs_digits (d piece : string) :
  all_of is_digit d = true ->
  PyRe.split_runs d piece true = [(piece ++ d)%string; ""].
Proof.
  revert piece. induction d as [|c d IH]; intros piece N.
  - simpl. now rewrite append_empty_r.
  - cbn [all_of] in N. apply andb_true_iff in N as [C N].
    cbn [PyRe.split_runs]. rewrite C. cbn [Bool.eqb].
    rewrite (IH _ N). now rewrite append_snoc.
Qed.

(** A string without digits is one piece. *)
Lemma split_digits_text (t : string) :
  none_of is_digit t = true -> PyRe.split_digits t = [t].
Proof.
  intros N. unfold PyRe.split_digits.
  rewrite <- (append_empty_r t) at 1. now rewrite (split_runs_text t "" "" N).
Qed.

(** A text followed by one run of digits gives three pieces, the last one
    empty. *)
Lemma split_digits_text_run (t d : string) :
  none_of is_digit t = true -> all_of is_digit d = true ->
  nonempty d = true ->
  PyRe.split_digits (t ++ d) = [t; d; ""].
Proof.
  intros N D NE. unfold PyRe.split_digits.
  rewrite (split_runs_text t d "" N). cbn [append].
  destruct d as [|c d]; [discriminate NE|].
  cbn [all_of] in D. apply andb_true_iff in D as [C D].
  cbn [PyRe.split_runs]. rewrite C. cbn [Bool.eqb].
  now rewrite (split_runs_digits d (String c "") D).
Qed.

Variable norm_fold : string -> string.

Lemma natural_key_text (t : string) :
  none_of is_digit t = true ->
  natural_key norm_fold t = [KStr (norm_fold t)].
Proof.
  intros N. unfold natural_key. now rewrite (split_digits_text t N).
Qed.

Lemma natural_key_text_run (t d : string) :
  none_of is_digit t = true -> all_of is_digit d = true ->
  nonempty d = true ->
  natural_key norm_fold (t ++ d)
  = [KStr (norm_fold t); KInt (decimal_value 0 d); KStr (norm_fold "")].
Proof.
  intros N D NE. unfold natural_key.
  now rewrite (split_digits_text_run t d N D NE).
Qed.

Lemma key_ltb_single (a b : string) :
  key_ltb [KStr a] [KStr b] = String.ltb a b.
Proof.
  unfold key_ltb, String.ltb. simpl. now destruct (String.compare a b).
Qed.

Lemma key_compare_text_run (a e : string) (m n : Z) :
  key_compare [KStr a; KInt m; KStr e] [KStr a; KInt n; KStr e]
  = (m ?= n)%Z.
Proof.
  simpl. rewrite string_compare_refl.
  destruct (m ?= n)%Z; [|reflexivity..].
  now rewrite string_compare_refl.
Qed.

End SimpleKeys.

(** X11: on strings without digits the two sorts agree: [natural_sort]
    returns what [alphabetical_sort] returns. *)
Theorem natural_sort_without_digits (norm_fold : string -> string)
  (l : list string) :
  Forall (fun s => none_of PyStr.is_digit s = true) l ->
  natural_sort norm_fold l = alphabetical_sort norm_fold l.
Proof.
  intros F.
  rewrite natural_sort_value, alphabetical_sort_value
    by (apply (Forall_impl _ short_runs_text F)).
  f_equal. apply place_all_agree. rewrite app_nil_r. intros x y Hx Hy.
  rewrite Forall_forall in F.
  rewrite (natural_key_text norm_fold x (F x Hx)).
  rewrite (natural_key_text norm_fold y (F y Hy)).
  apply key_ltb_single.
Qed.

Lemma natural_sort_without_digits_witness :
  natural_sort ascii_norm_fold ["pear"; "Apple"; "fig"]
  = alphabetical_sort ascii_norm_fold ["pear"; "Apple"; "fig"].
Proof.
  apply natural_sort_without_digits. repeat constructor.
Defined.

(** X12: two strings made of one text without digits followed by a run of
    at most [int_max_str_digits] digits are ordered by the numbers the runs
    denote, whatever the number of leading zeros: the keys [natural_keys]
    returns for them compare as the numbers do, and [natural_sort] puts the
    one with the smaller number first. *)
Theorem natural_sort_numeric_order (norm_fold : string -> string)
  (t d1 d2 : string) :
  none_of PyStr.is_digit t = true ->
  all_of PyStr.is_digit d1 = true -> nonempty d1 = true ->
  String.length d1 <= PyStr.int_max_str_digits ->
  all_of PyStr.is_digit d2 = true -> nonempty d2 = true ->
  String.length d2 <= PyStr.int_max_str_digits ->
  (exists k1 k2,
      natural_keys norm_fold (t ++ d1) = Ok k1
      /\ natural_keys norm_fold (t ++ d2) = Ok k2
      /\ key_compare k1 k2 = (decimal_value 0 d1 ?= decimal_value 0 d2)%Z)
  /\ ((decimal_value 0 d1 < decimal_value 0 d2)%Z ->
      natural_sort norm_fold [(t ++ d2)%string; (t ++ d1)%string]
      = Ok [(t ++ d1)%string; (t ++ d2)%string]).
Proof.
  intros N D1 E1 L1 D2 E2 L2.
  pose proof (short_runs_text_run t d1 N D1 L1) as S1.
  pose proof (short_runs_text_run t d2 N D2 L2) as S2.
  assert (C : key_compare (natural_key norm_fold (t ++ d1))
                          (natural_key norm_fold (t ++ d2))
              = (decimal_value 0 d1 ?= decimal_value 0 d2)%Z).
  { rewrite (natural_key_text_run norm_fold t d1 N D1 E1).
    rewrite (natural_key_text_run norm_fold t d2 N D2 E2).
    apply key_compare_text_run. }
  split.
  - exists (natural_key norm_fold (t ++ d1)), (natural_key norm_fold (t ++ d2)).
    split; [now apply natural_keys_value|].
    split; [now apply natural_keys_value | exact C].
  - intros L. rewrite natural_sort_value by (repeat constructor; assumption).
    cbn [place_all place].
    unfold key_ltb. rewrite C. apply Z.compare_lt_iff in L. now rewrite L.
Qed.

Lemma natural_sort_numeric_order_witness :
  natural_sort ascii_norm_fold ["file10"; "file002"] = Ok ["file002"; "file10"].
Proof.
  refine (proj2 (@natural_sort_numeric_order ascii_norm_fold "file" "002" "10"
                   eq_refl eq_refl eq_refl
                   (proj1 (Nat.leb_le 3 PyStr.int_max_str_digits) eq_refl)
                   eq_refl eq_refl
                   (proj1 (Nat.leb_le 2 PyStr.int_max_str_digits) eq_refl)) _).
  reflexivity.
Defined.

(** ** Text files *)

Section TextFileMore.

Import PyCodecs.

Ltac decoder_cases_eq :=
  repeat match goal with
         | |- context [if ?c then _ else _] => destruct c eqn:?
         | |- context [match ?r with [] => _ | _ :: _ => _ end] =>
             is_var r; destruct r
         end.

Ltac replay_tests :=
  repeat match goal with
         | H : ?c = _ |- context [if ?c then _ else _] => rewrite H
         end.

(** What the stream decoder accepts is text decoded in full, followed by at
    most three bytes of a sequence that the end of the data cuts. *)
Lemma utf_8_decode_stream_prefix (n : nat) :
  forall (data : list Byte.byte) (t : text),
    length data <= n ->
    utf_8_decode false data = Ok t ->
    exists pre tail,
      data = pre ++ tail /\ utf_8_decode true pre = Ok t /\ length tail <= 3.
Proof.
  induction n as [|n IH]; intros data t L;
    (destruct data as [|b0 r0];
     [intros [= <-]; exists [], []; repeat split; simpl; lia|]);
    simpl in L; [lia|].
  cbn [utf_8_decode]. unfold unexpected_end. cbn [negb andb].
  decoder_cases_eq; try discriminate;
    try (intros [= <-];
         match goal with
         | |- exists pre tail, ?d = _ /\ _ =>
             exists [], d; repeat split; simpl; lia
         end);
    match goal with
    | |- context [utf_8_decode false ?r] =>
        destruct (utf_8_decode false r) as [t'|] eqn:U; [|discriminate];
        cbn [bind]; intros [= <-];
        destruct (IH r t') as [pre [tail [E [P T]]]];
        [simpl in L; lia | exact U |];
        subst r; eexists; exists tail; split;
        [repeat rewrite app_comm_cons; reflexivity|];
        split; [|exact T];
        cbn [utf_8_decode]; replay_tests; rewrite P; reflexivity
    end.
Qed.

Lemma ascii_decode_utf_8 (final : bool) (data : list Byte.byte) (t : text) :
  ascii_decode data = Ok t -> utf_8_decode final data = Ok t.
Proof.
  revert t. induction data as [|b r IH]; intros t; [trivial|].
  cbn [ascii_decode utf_8_decode].
  destruct (byte_code b <? 128)%N; [|discriminate].
  destruct (ascii_decode r) as [t'|]; [|discriminate].
  intros [= <-]. now rewrite (IH t').
Qed.

Lemma never_in_utf8_tests (b : Byte.byte) :
  never_in_utf8 b = true ->
  (byte_code b <? 128)%N = false
  /\ is_continuation b = false
  /\ ((byte_code b <? 194)%N = true \/ (byte_code b <? 245)%N = false).
Proof.
  unfold never_in_utf8, is_continuation. intros H.
  apply orb_true_iff in H as [H|H];
    [apply orb_true_iff in H as [H|H]; apply N.eqb_eq in H; rewrite H;
     repeat split; auto|].
  apply N.leb_le in H. repeat split.
  - apply N.ltb_ge. lia.
  - apply andb_false_iff. right. apply N.leb_gt. lia.
  - right. apply N.ltb_ge. lia.
Qed.

End TextFileMore.

Section RejectedBytes.

Import PyCodecs.

Ltac decoder_cases_eq :=
  repeat match goal with
         | |- context [if ?c then _ else _] => destruct c eqn:?
         | |- context [match ?r with [] => _ | _ :: _ => _ end] =>
             is_var r; destruct r
         end.

Ltac tests_to_props :=
  unfold second_of_3, second_of_4 in *;
  repeat match goal with
         | H : _ && _ = true |- _ => apply andb_true_iff in H as [? ?]
         end;
  try congruence;
  repeat match goal with
         | H : (_ <? _)%N = true |- _ => apply N.ltb_lt in H
         | H : (_ <? _)%N = false |- _ => apply N.ltb_ge in H
         end;
  lia.

(** A byte that no UTF-8 text holds makes the stream decoder raise,
    wherever it stands. *)
Lemma utf_8_decode_rejects (n : nat) :
  forall (data : list Byte.byte) (b : Byte.byte),
    length data <= n -> In b data -> never_in_utf8 b = true ->
    utf_8_decode false data = Raise UnicodeDecodeError.
Proof.
  induction n as [|n IH]; intros data b L HIn Hn;
    (destruct data as [|b0 r0]; [destruct HIn|]); simpl in L; [lia|].
  destruct (never_in_utf8_tests b Hn) as [T1 [T2 T3]].
  cbn [utf_8_decode]. unfold unexpected_end. cbn [negb andb].
  decoder_cases_eq; try reflexivity;
    simpl in HIn;
    repeat match goal with
           | H : _ \/ _ |- _ => destruct H
           | H : False |- _ => destruct H
           end;
    subst;
    first
      [ tests_to_props
      | match goal with
        | H : In b ?r |- context [utf_8_decode false ?r] =>
            rewrite (IH r b); [reflexivity | simpl in L; lia | exact H | exact Hn]
        end ].
Qed.

Lemma ascii_decode_rejects (data : list Byte.byte) (b : Byte.byte) :
  In b data -> (byte_code b <? 128)%N = false ->
  ascii_decode data = Raise UnicodeDecodeError.
Proof.
  induction data as [|b0 r IH]; intros HIn Hb; [destruct HIn|].
  cbn [ascii_decode]. destruct HIn as [->|HIn]; [now rewrite Hb|].
  destruct (byte_code b0 <? 128)%N; [|reflexivity].
  now rewrite (IH HIn Hb).
Qed.

End RejectedBytes.

(** X13: when reading the file raises nothing but [OSError],
    [is_text_file] lets out no exception but one that the expansion of the
    path at its first line raises: that one leaves the function as it is,
    and once the path is expanded the function answers [True] or
    [False]. *)
Theorem is_text_file_raises_from_expansion_only
  (fs : string -> result (list Byte.byte)) (expand : string -> result string)
  (file_path : string) :
  (forall p e, fs p = Raise e -> e = OSError) ->
  match expand file_path with
  | Ok _ => exists b, is_text_file_from_path fs expand file_path = Ok b
  | Raise e => is_text_file_from_path fs expand file_path = Raise e
  end.
Proof.
  intros H. unfold is_text_file_from_path.
  destruct (expand file_path) as [expanded_path|e]; cbn [bind];
    [|reflexivity].
  now apply is_text_file_returns.
Qed.

Lemma is_text_file_raises_from_expansion_only_witness :
  exists b,
    is_text_file_from_path (fun _ => Raise OSError) (fun p => Ok p) "gone.txt"
    = Ok b.
Proof.
  apply (@is_text_file_raises_from_expansion_only
           (fun _ => Raise OSError) (fun p => Ok p) "gone.txt").
  now intros p e [= <-].
Defined.

(** X14: a file that cannot be read and a file without content are not
    text files. *)
Theorem is_text_file_unreadable_or_empty
  (fs : string -> result (list Byte.byte)) (expand_path : string -> string)
  (file_path : string) :
  (fs (expand_path file_path) = Raise OSError ->
   is_text_file fs expand_path file_path = Ok false)
  /\ (fs (expand_path file_path) = Ok [] ->
      is_text_file fs expand_path file_path = Ok false).
Proof.
  split.
  - apply is_text_file_unreadable.
  - intros F. unfold is_text_file, has_a_line. now rewrite F.
Qed.

Lemma is_text_file_unreadable_or_empty_witness :
  is_text_file (fun _ => Ok []) (fun p => p) "empty.txt" = Ok false.
Proof.
  exact (proj2 (is_text_file_unreadable_or_empty
                  (fun _ => Ok []) (fun p => p) "empty.txt") eq_refl).
Defined.

(** X15: a file whose content decodes in full under strict ASCII or strict
    UTF-8 and has a line is a text file. *)
Theorem is_text_file_accepts_text
  (fs : string -> result (list Byte.byte)) (expand_path : string -> string)
  (file_path : string) (data : list Byte.byte) :
  fs (expand_path file_path) = Ok data ->
  is_text_content data = true ->
  is_text_file fs expand_path file_path = Ok true.
Proof.
  apply is_text_file_complete.
Qed.

Lemma is_text_file_accepts_text_witness :
  is_text_file (fun _ => Ok [Byte.xc3; Byte.xa9; Byte.x0a]) (fun p => p)
               "e.txt" = Ok true.
Proof.
  exact (@is_text_file_accepts_text
           (fun _ => Ok [Byte.xc3; Byte.xa9; Byte.x0a]) (fun p => p) "e.txt"
           [Byte.xc3; Byte.xa9; Byte.x0a] eq_refl eq_refl).
Defined.

(** X16: when [is_text_file] answers [True], the content is text in the
    sense above but for at most three bytes at its end. *)
Theorem is_text_file_true_content
  (fs : string -> result (list Byte.byte)) (expand_path : string -> string)
  (file_path : string) (data : list Byte.byte) :
  fs (expand_path file_path) = Ok data ->
  is_text_file fs expand_path file_path = Ok true ->
  exists pre tail,
    data = pre ++ tail /\ is_text_content pre = true /\ length tail <= 3.
Proof.
  intros F. unfold is_text_file, has_a_line, PyCodecs.stream_decode.
  rewrite F. cbn [bind].
  destruct (PyCodecs.ascii_decode data) as [t|e] eqn:D; cbn [bind].
  - intros [= C]. exists data, []. rewrite app_nil_r.
    repeat split; [|simpl; lia].
    unfold is_text_content, PyCodecs.strict_decode. now rewrite D.
  - apply ascii_decode_raises in D. subst e.
    destruct (PyCodecs.utf_8_decode false data) as [t|e] eqn:U; cbn [bind].
    + intros [= C].
      destruct (@utf_8_decode_stream_prefix (length data) data t (le_n _) U)
        as [pre [tail [E [P T]]]].
      exists pre, tail. repeat split; [exact E | | exact T].
      unfold is_text_content, PyCodecs.strict_decode.
      destruct (PyCodecs.ascii_decode pre) as [t'|] eqn:D'.
      * apply (ascii_decode_utf_8 true) in D'. congruence.
      * now rewrite P.
    + destruct e; discriminate.
Qed.

Lemma is_text_file_true_content_witness :
  exists pre tail,
    [Byte.x61; Byte.xe2; Byte.x82] = pre ++ tail
    /\ is_text_content pre = true /\ length tail <= 3.
Proof.
  exact (@is_text_file_true_content
           (fun _ => Ok [Byte.x61; Byte.xe2; Byte.x82]) (fun p => p) "cut.txt"
           [Byte.x61; Byte.xe2; Byte.x82] eq_refl eq_refl).
Defined.

(** X17: a readable file that holds one of the bytes 0xC0, 0xC1 or
    0xF5..0xFF, at any place, is not a text file. *)
Theorem is_text_file_rejects_bytes
  (fs : string -> result (list Byte.byte)) (expand_path : string -> string)
  (file_path : string) (data : list Byte.byte) (b : Byte.byte) :
  fs (expand_path file_path) = Ok data ->
  In b data -> never_in_utf8 b = true ->
  is_text_file fs expand_path file_path = Ok false.
Proof.
  intros F HIn Hn. unfold is_text_file, has_a_line, PyCodecs.stream_decode.
  rewrite F. cbn [bind].
  destruct (never_in_utf8_tests b Hn) as [T _].
  rewrite (@ascii_decode_rejects data b HIn T). cbn [bind].
  now rewrite (@utf_8_decode_rejects (length data) data b (le_n _) HIn Hn).
Qed.

Lemma is_text_file_rejects_bytes_witness :
  is_text_file (fun _ => Ok [Byte.x61; Byte.xe2; Byte.xff]) (fun p => p)
               "blob.bin" = Ok false.
Proof.
  refine (@is_text_file_rejects_bytes
            (fun _ => Ok [Byte.x61; Byte.xe2; Byte.xff]) (fun p => p)
            "blob.bin" [Byte.x61; Byte.xe2; Byte.xff] Byte.xff eq_refl _ eq_refl).
  simpl. auto.
Defined.

(** ** More on natural keys *)

Section KeyNumbers.

Import PyStr.

Variable norm_fold : string -> string.

Lemma digit_value_nonneg (c : ascii) :
  is_digit c = true -> (0 <= digit_value c)%Z.
Proof.
  unfold is_digit, in_range, digit_value. intros H.
  apply andb_true_iff in H as [L _]. apply N.leb_le in L. lia.
Qed.

Lemma decimal_value_nonneg (d : string) (acc : Z) :
  all_of is_digit d = true -> (0 <= acc)%Z -> (0 <= decimal_value acc d)%Z.
Proof.
  revert acc. induction d as [|c d IH]; intros acc D A; [exact A|].
  cbn [all_of] in D. apply andb_true_iff in D as [C D].
  cbn [decimal_value]. apply (IH _ D).
  pose proof (digit_value_nonneg c C). lia.
Qed.

Lemma key_of_pieces_nonneg (pieces : list string) (inner d : bool) (n : Z) :
  split_on_digit_runs inner d pieces = true ->
  In (KInt n) (key_of_pieces norm_fold d pieces) -> (0 <= n)%Z.
Proof.
  revert inner d. induction pieces as [|p r IH]; intros inner d H HIn;
    [destruct HIn|].
  cbn [key_of_pieces] in HIn. destruct HIn as [E|HIn].
  - destruct d; [|discriminate E]. injection E as <-.
    assert (D : all_of is_digit p = true).
    { destruct r as [|q r'].
      - simpl in H. discriminate H.
      - rewrite split_on_digit_runs_cons in H by discriminate.
        apply andb_true_iff in H as [F _]. unfold piece_fits in F.
        now apply andb_true_iff in F as [F _]. }
    now apply decimal_value_nonneg.
  - destruct r as [|q r']; [destruct HIn|].
    rewrite split_on_digit_runs_cons in H by discriminate.
    apply andb_true_iff in H as [_ R]. exact (IH true (negb d) R HIn).
Qed.

Lemma natural_key_nonneg (s : string) (n : Z) :
  In (KInt n) (natural_key norm_fold s) -> (0 <= n)%Z.
Proof.
  apply (key_of_pieces_nonneg _ false false).
  now apply split_runs_shape.
Qed.

Lemma built_key_of_pieces_nonneg (pieces : list string) (inner d : bool)
  (n : Z) :
  split_on_digit_runs inner d pieces = true ->
  In (KInt n) (built_key_of_pieces norm_fold d pieces) -> (0 <= n)%Z.
Proof.
  revert inner d. induction pieces as [|p r IH]; intros inner d H HIn;
    [destruct HIn|].
  cbn [built_key_of_pieces] in HIn. destruct HIn as [E|HIn].
  - destruct d; [|discriminate E].
    destruct (String.length p <=? int_max_str_digits)%nat; [|discriminate E].
    injection E as <-.
    assert (D : all_of is_digit p = true).
    { destruct r as [|q r'].
      - simpl in H. discriminate H.
      - rewrite split_on_digit_runs_cons in H by discriminate.
        apply andb_true_iff in H as [F _]. unfold piece_fits in F.
        now apply andb_true_iff in F as [F _]. }
    now apply decimal_value_nonneg.
  - destruct r as [|q r']; [destruct HIn|].
    rewrite split_on_digit_runs_cons in H by discriminate.
    apply andb_true_iff in H as [_ R]. exact (IH true (negb d) R HIn).
Qed.

Lemma built_key_nonneg (s : string) (n : Z) :
  In (KInt n) (built_key norm_fold s) -> (0 <= n)%Z.
Proof.
  apply (built_key_of_pieces_nonneg _ false false).
  now apply split_runs_shape.
Qed.

(** ** Keys of a text and of a text with one run of digits *)

Lemma built_key_text (t : string) :
  none_of is_digit t = true -> built_key norm_fold t = [KStr (norm_fold t)].
Proof.
  intros N. unfold built_key. now rewrite (split_digits_text t N).
Qed.

Lemma built_key_text_run (t d : string) :
  none_of is_digit t = true -> all_of is_digit d = true ->
  nonempty d = true ->
  built_key norm_fold (t ++ d)
  = [KStr (norm_fold t);
     if (String.length d <=? int_max_str_digits)%nat
     then KInt (decimal_value 0 d) else KStr (norm_fold d);
     KStr (norm_fold "")].
Proof.
  intros N D NE. unfold built_key.
  now rewrite (split_digits_text_run t d N D NE).
Qed.

Lemma length_replicate (n : nat) (c : ascii) :
  String.length (replicate n c) = n.
Proof.
  induction n as [|n IH]; [reflexivity|]. simpl. now rewrite IH.
Qed.

Lemma all_of_replicate (p : ascii -> bool) (n : nat) (c : ascii) :
  p c = true -> all_of p (replicate n c) = true.
Proof.
  intros C. induction n as [|n IH]; [reflexivity|].
  cbn [replicate all_of]. now rewrite C, IH.
Qed.

(** A run of more digits than [int] reads stays a string in the key. *)
Lemma built_key_long_run (t : string) (n : nat) (c : ascii) :
  none_of is_digit t = true -> is_digit c = true ->
  int_max_str_digits < S n ->
  built_key norm_fold (t ++ replicate (S n) c)
  = [KStr (norm_fold t); KStr (norm_fold (replicate (S n) c));
     KStr (norm_fold "")].
Proof.
  intros N C L.
  rewrite (built_key_text_run t (replicate (S n) c) N
             (all_of_replicate is_digit (S n) c C) eq_refl).
  rewrite length_replicate.
  now rewrite (proj2 (Nat.leb_gt (S n) int_max_str_digits) L).
Qed.

Lemma digit_value_range (c : ascii) :
  is_digit c = true -> (0 <= digit_value c <= 9)%Z.
Proof.
  unfold is_digit, in_range, digit_value. intros H.
  apply andb_true_iff in H as [L U].
  apply N.leb_le in L. apply N.leb_le in U. lia.
Qed.

(** The number a run of digits denotes, between the powers of ten. *)
Lemma decimal_value_bounds (d : string) (acc : Z) :
  all_of is_digit d = true -> (0 <= acc)%Z ->
  (acc * 10 ^ Z.of_nat (String.length d) <= decimal_value acc d
   < (acc + 1) * 10 ^ Z.of_nat (String.length d))%Z.
Proof.
  revert acc. induction d as [|c d IH]; intros acc D A.
  - simpl. lia.
  - cbn [all_of] in D. apply andb_true_iff in D as [C D].
    pose proof (digit_value_range c C) as R.
    cbn [decimal_value String.length].
    rewrite Nat2Z.inj_succ, Z.pow_succ_r by lia.
    assert (P : (0 < 10 ^ Z.of_nat (String.length d))%Z)
      by (apply Z.pow_pos_nonneg; lia).
    assert (A' : (0 <= 10 * acc + digit_value c)%Z) by lia.
    specialize (IH _ D A'). nia.
Qed.

(** A run of nines denotes less than a run of ones that is one digit
    longer. *)
Lemma decimal_value_nines_ones (n : nat) :
  (decimal_value 0 (replicate n "9") < decimal_value 0 (replicate (S n) "1"))%Z.
Proof.
  cbn [replicate decimal_value].
  change (10 * 0 + digit_value "1")%Z with 1%Z.
  pose proof (@decimal_value_bounds (replicate n "9") 0
                (all_of_replicate is_digit n "9" eq_refl) (Z.le_refl 0)) as N9.
  pose proof (@decimal_value_bounds (replicate n "1") 1
                (all_of_replicate is_digit n "1" eq_refl) ltac:(lia)) as N1.
  rewrite length_replicate in N9, N1. lia.
Qed.

End KeyNumbers.

(** X18: a natural sort key holds no negative number: a sign before a run
    of digits stays in the text to its left. *)
Theorem natural_keys_numbers_nonnegative (norm_fold : string -> string)
  (s : string) (k : list key_part) (n : Z) :
  natural_keys norm_fold s = Ok k -> In (KInt n) k -> (0 <= n)%Z.
Proof.
  rewrite natural_keys_built. intros [= <-]. apply built_key_nonneg.
Qed.

Lemma natural_keys_numbers_nonnegative_witness : (0 <= 5)%Z.
Proof.
  refine (@natural_keys_numbers_nonnegative ascii_norm_fold "t-5"
            [KStr "t-"; KInt 5; KStr ""] 5%Z eq_refl _).
  simpl. auto.
Defined.

(** X19: a text without digits comes before the same text followed by a
    run of digits, in the order of the keys and in what [natural_sort]
    returns. *)
Theorem natural_sort_text_before_number (norm_fold : string -> string)
  (t d : string) :
  none_of PyStr.is_digit t = true ->
  all_of PyStr.is_digit d = true -> nonempty d = true ->
  key_compare (natural_key norm_fold t) (natural_key norm_fold (t ++ d)) = Lt
  /\ natural_sort norm_fold [(t ++ d)%string; t] = Ok [t; (t ++ d)%string].
Proof.
  intros N D E.
  assert (C : key_compare (natural_key norm_fold t)
                          (natural_key norm_fold (t ++ d)) = Lt).
  { rewrite (natural_key_text norm_fold t N).
    rewrite (natural_key_text_run norm_fold t d N D E).
    simpl. now rewrite string_compare_refl. }
  split; [exact C|].
  pose proof (built_key_text norm_fold t N) as Kt.
  pose proof (built_key_text_run norm_fold t d N D E) as Kd.
  rewrite natural_sort_on_built.
  - cbn [place_all place]. rewrite Kt, Kd.
    unfold key_ltb. cbn [key_compare part_compare].
    now rewrite string_compare_refl.
  - intros a b [<-|[<-|[]]] [<-|[<-|[]]];
      rewrite ?Kt, ?Kd, ?comparable_cons, ?part_compare_refl; reflexivity.
Qed.

Lemma natural_sort_text_before_number_witness :
  natural_sort ascii_norm_fold ["ch12"; "ch"] = Ok ["ch"; "ch12"].
Proof.
  exact (proj2 (@natural_sort_text_before_number ascii_norm_fold "ch" "12"
                  eq_refl eq_refl eq_refl)).
Defined.

(** ** Runs of digits that [int] refuses *)

Section LongRuns.

Import PyStr.

(** Case folding on ASCII leaves a run of one digit as it is. *)
Lemma ascii_norm_fold_replicate (n : nat) (c : ascii) :
  ascii_norm_fold (replicate n c) = replicate n (ascii_fold_char c).
Proof.
  induction n as [|n IH]; [reflexivity|].
  cbn [replicate ascii_norm_fold]. now rewrite IH.
Qed.

(** The sort of a text with a long run of digits and the same text with a
    short one raises: the keys differ in type at position 1. *)
Lemma natural_sort_long_run_raises (norm_fold : string -> string) (n : nat) :
  int_max_str_digits < S n ->
  natural_sort norm_fold [("a" ++ replicate (S n) "1")%string; "a1"]
  = Raise TypeError.
Proof.
  intros L. unfold natural_sort, PySort.sorted.
  cbn [PySort.decorate]. rewrite !natural_keys_built.
  rewrite (@built_key_long_run norm_fold "a" n "1" eq_refl eq_refl L).
  change (built_key norm_fold "a1")
    with [KStr (norm_fold "a"); KInt 1; KStr (norm_fold "")].
  cbn [bind PySort.insert_all PySort.insert fst PyCmp.list_lt PyCmp.eq].
  rewrite String.eqb_refl. reflexivity.
Qed.

(** With runs that stay strings the sort orders by the digits as text: a
    run of ones goes before a shorter run of nines. *)
Lemma natural_sort_long_runs_as_text (n : nat) :
  int_max_str_digits < S n ->
  natural_sort ascii_norm_fold
    [("a" ++ replicate (S n) "9")%string; ("a" ++ replicate (S (S n)) "1")%string]
  = Ok [("a" ++ replicate (S (S n)) "1")%string;
        ("a" ++ replicate (S n) "9")%string].
Proof.
  intros L.
  assert (L' : int_max_str_digits < S (S n)) by lia.
  pose proof (@built_key_long_run ascii_norm_fold "a" n "9" eq_refl eq_refl L)
    as K9.
  pose proof (@built_key_long_run ascii_norm_fold "a" (S n) "1" eq_refl eq_refl
                L') as K1.
  rewrite !ascii_norm_fold_replicate in K9, K1.
  rewrite natural_sort_on_built.
  - cbn [place_all place]. rewrite K9, K1.
    unfold key_ltb. cbn [key_compare part_compare].
    rewrite string_compare_refl. reflexivity.
  - intros a b [<-|[<-|[]]] [<-|[<-|[]]];
      rewrite ?K9, ?K1, ?comparable_cons, ?part_compare_refl;
      try reflexivity;
      match goal with
      | |- context [part_compare ?x ?y] => destruct (part_compare x y)
      end; reflexivity.
Qed.

(** The keys of the claim order the same two strings by their numbers. *)
Lemma natural_key_nines_ones (norm_fold : string -> string) (n : nat) :
  key_compare (natural_key norm_fold ("a" ++ replicate (S n) "9"))
              (natural_key norm_fold ("a" ++ replicate (S (S n)) "1"))
  = Lt.
Proof.
  rewrite (@natural_key_text_run norm_fold "a" (replicate (S n) "9") eq_refl
             (all_of_replicate is_digit (S n) "9" eq_refl) eq_refl).
  rewrite (@natural_key_text_run norm_fold "a" (replicate (S (S n)) "1") eq_refl
             (all_of_replicate is_digit (S (S n)) "1" eq_refl) eq_refl).
  rewrite key_compare_text_run. apply Z.compare_lt_iff.
  apply decimal_value_nines_ones.
Qed.

Lemma over_the_limit (n : nat) :
  (int_max_str_digits <? n)%nat = true -> int_max_str_digits < n.
Proof. apply Nat.ltb_lt. Qed.

End LongRuns.

(** C5: the code departs from the claim on a run of more than
    [int_max_str_digits] digits, which [int] refuses with the [ValueError]
    that [try_int_or_force_to_lower_case] takes for a text.  The key of
    ['a' + '1' * 4301] holds a string at position 1, where the key of ['a1']
    holds an integer: the key does not alternate, the two keys differ in
    type at one position, and [natural_sort] on the two strings raises a
    [TypeError]. *)
Theorem natural_sort_long_run_type_error (norm_fold : string -> string) :
  natural_keys norm_fold ("a" ++ replicate 4301 "1")
  = Ok [KStr (norm_fold "a"); KStr (norm_fold (replicate 4301 "1"));
        KStr (norm_fold "")]
  /\ natural_keys norm_fold "a1"
     = Ok [KStr (norm_fold "a"); KInt 1; KStr (norm_fold "")]
  /\ natural_sort norm_fold [("a" ++ replicate 4301 "1")%string; "a1"]
     = Raise TypeError.
Proof.
  pose proof (over_the_limit 4301 eq_refl) as L.
  split; [|split].
  - rewrite natural_keys_built.
    now rewrite (@built_key_long_run norm_fold "a" 4300 "1" eq_refl eq_refl L).
  - rewrite natural_keys_built. reflexivity.
  - exact (natural_sort_long_run_raises norm_fold L).
Qed.

(** C6: the code departs from the claim on runs of more than
    [int_max_str_digits] digits: they stay strings in the key the code
    builds, so that [natural_sort] returns ['a' + '1' * 4302] before
    ['a' + '9' * 4301], while in the keys of the claim, where every run of
    digits is an integer, the second is below the first: what is returned
    is not sorted by these keys. *)
Theorem natural_sort_long_runs_out_of_order :
  natural_sort ascii_norm_fold
    [("a" ++ replicate 4301 "9")%string; ("a" ++ replicate 4302 "1")%string]
  = Ok [("a" ++ replicate 4302 "1")%string; ("a" ++ replicate 4301 "9")%string]
  /\ key_compare (natural_key ascii_norm_fold ("a" ++ replicate 4301 "9"))
                 (natural_key ascii_norm_fold ("a" ++ replicate 4302 "1"))
     = Lt.
Proof.
  split.
  - exact (natural_sort_long_runs_as_text (over_the_limit 4301 eq_refl)).
  - exact (natural_key_nines_ones ascii_norm_fold 4300).
Qed.
